(** * Rellax: the parallax engine of [src/rellax.js], embedded and verified

    The development follows the source file top to bottom: the JavaScript
    primitives the library relies on ([Math.round], [||] on numbers,
    [String.prototype.indexOf] / [slice] / [replace]), the browser state it
    reads and writes, the instance record built by the constructor, and then
    every prototype method under its own name.

    Numbers.  The methods are embedded over exact rationals ([Q]): the
    arithmetic of the source ([+], [-], [*], [/], [Math.round]) is the exact
    one, and equality of numbers is [Qeq].  This is the model for what does
    not depend on rounding error: which branch runs, what is written where,
    equalities between two evaluations of the same expression, monotonicity.
    A quotient whose divisor is zero has no counterpart in it ([Q] gives 0,
    the source [NaN] or an infinity), so the statements that go through a
    division carry the hypothesis that the divisor is not zero.  What does
    depend on the arithmetic of doubles (the rounding policies of
    [updatePosition], the value of [0/0]) is stated over module [IEEE], where
    the same expressions are evaluated in binary64 with the operations of
    the Standard Library's [SpecFloat].

    Effects.  Methods mutate the instance ([this]) and the browser (element
    styles, the listener table of [window], the frame clock); they are
    functions from an instance and a browser state to the new pair. *)

From Stdlib Require Import ZArith QArith Qround List String Ascii Bool Lia Lqa.
From Stdlib Require Import SpecFloat.
Import ListNotations.

Open Scope Q_scope.

(** ** JavaScript primitives *)

Module JS.

(** Truthiness of a number: [0] is the falsy one. *)
Definition truthy (a : Q) : bool := negb (Qeq_bool a 0).

(** [a || b] on numbers. *)
Definition or (a b : Q) : Q := if truthy a then a else b.

(** [a != b] on numbers. *)
Definition neq (a b : Q) : bool := negb (Qeq_bool a b).

(** [Math.round]: the nearest integer, a tie going towards plus infinity. *)
Definition Math_round (a : Q) : Q := inject_Z (Qfloor (a + (1 # 2))).

(** Strings are sequences of UTF-16 code units. *)
Definition str := list N.

Definition lit (s : string) : str := map N_of_ascii (list_ascii_of_string s).

Fixpoint isPrefix (p s : str) : bool :=
  match p, s with
  | [], _ => true
  | _ :: _, [] => false
  | a :: p', b :: s' => N.eqb a b && isPrefix p' s'
  end.

(** [indexOf_from p s i]: the position of the first occurrence of [p] in
    [s], counted from [i], or [-1]. *)
Fixpoint indexOf_from (p s : str) (i : Z) : Z :=
  if isPrefix p s then i
  else match s with
       | [] => (-1)%Z
       | _ :: s' => indexOf_from p s' (i + 1)%Z
       end.

(** [s.indexOf(p)] *)
Definition indexOf (s p : str) : Z := indexOf_from p s 0%Z.

(** Resolution of a relative index of [slice] against the length. *)
Definition clamp (len k : Z) : Z :=
  if (k <? 0)%Z then Z.max (len + k) 0 else Z.min k len.

(** [s.slice(start, stop)]; [None] is an [undefined] second argument. *)
Definition slice (s : str) (start : Z) (stop : option Z) : str :=
  let len := Z.of_nat (List.length s) in
  let from := clamp len start in
  let to := match stop with
            | None => len
            | Some e => clamp len e
            end in
  firstn (Z.to_nat (to - from)) (skipn (Z.to_nat from) s).

(** The class [\s] of regular expressions: WhiteSpace and LineTerminator. *)
Definition isWhiteSpace (c : N) : bool :=
  (((9 <=? c) && (c <=? 13)) || (c =? 32) || (c =? 160) || (c =? 5760)
   || ((8192 <=? c) && (c <=? 8202)) || (c =? 8232) || (c =? 8233)
   || (c =? 8239) || (c =? 8287) || (c =? 12288) || (c =? 65279))%N.

(** [s.replace(/\s/g, '')] *)
Definition removeWhiteSpace (s : str) : str :=
  filter (fun c => negb (isWhiteSpace c)) s.


End JS.

(** ** Numbers as the engine computes them

    The numeric core of the library over binary64: a number is a
    [spec_float] (signed zeros, infinities, [NaN], or sign, mantissa and
    exponent), and [+], [-], [*], [/] are the correctly rounded operations
    of [SpecFloat] at precision 53 and maximal exponent 1024. *)

Module IEEE.
Local Open Scope Z_scope.

Definition number := spec_float.

Definition prec := 53.
Definition emax := 1024.

Definition add : number -> number -> number := SFadd prec emax.
Definition sub : number -> number -> number := SFsub prec emax.
Definition mul : number -> number -> number := SFmul prec emax.
Definition div : number -> number -> number := SFdiv prec emax.

(** An integer literal, and the conversion of an integer to a number. *)
Definition of_Z (n : Z) : number := binary_normalize prec emax n 0 false.

(** The decimal literal whose digits are [n] over the power of ten [d], as
    in [0.03 = decimal 3 100]: the double nearest to the quotient. *)
Definition decimal (n d : Z) : number := div (of_Z n) (of_Z d).

Definition is_finite (a : number) : bool :=
  match a with
  | S754_zero _ | S754_finite _ _ _ => true
  | _ => false
  end.

(** The value [m * 2^e] is an integer: decided on mantissa and exponent. *)
Definition is_integer (a : number) : bool :=
  match a with
  | S754_zero _ => true
  | S754_finite _ m e => (0 <=? e) || (Zpos m mod 2 ^ (- e) =? 0)
  | _ => false
  end.

(** The value [m * 2^e] is an integer multiple of 1/100 (a hundred times
    the value is an integer): decided on mantissa and exponent. *)
Definition is_multiple_of_hundredth (a : number) : bool :=
  match a with
  | S754_zero _ => true
  | S754_finite _ m e => (0 <=? e) || ((100 * Zpos m) mod 2 ^ (- e) =? 0)
  | _ => false
  end.

(** The exact value of a finite number, [m * 2^e] with its sign; zero for
    the others. *)
Definition to_Q (a : number) : Q :=
  match a with
  | S754_finite s m e =>
      if 0 <=? e then inject_Z (cond_Zopp s (Zpos m) * 2 ^ e)
      else Qmake (cond_Zopp s (Zpos m)) (Z.to_pos (2 ^ (- e)))
  | _ => 0%Q
  end.

(** An integer, as far as it is a number at all. *)
Definition integral (a : number) : Prop :=
  is_finite a = true -> exists z : Z, (to_Q a == inject_Z z)%Q.

(** [Math.round]: [floor(a + 1/2)] of the exact value; zeros, infinities
    and [NaN] are returned as they are, and so is a number whose exponent is
    not negative, which is an integer already.  A result of zero keeps the
    sign of the argument ([Math.round(-0.2)] is [-0]). *)
Definition Math_round (a : number) : number :=
  match a with
  | S754_finite s m e =>
      if 0 <=? e then a
      else let n := (2 * cond_Zopp s (Zpos m) + 2 ^ (- e)) / 2 ^ (1 - e) in
           if n =? 0 then S754_zero s else of_Z n
  | _ => a
  end.

(** [speed * (100 * (1 - percentage))], an entry of [values]. *)
Definition raw (speed percentage : number) : number :=
  mul speed (mul (of_Z 100) (sub (of_Z 1) percentage)).

(** [calc]: [Math.round(v)], or [Math.round(v * 100) / 100]. *)
Definition calc (round : bool) (v : number) : number :=
  if round then Math_round v
  else div (Math_round (mul v (of_Z 100))) (of_Z 100).

(** [updatePosition(percentageX, percentageY, speed)], with the [round]
    option as a parameter. *)
Definition updatePosition (round : bool) (percentageX percentageY speed : number)
  : number * number :=
  (calc round (raw speed percentageX), calc round (raw speed percentageY)).

(** The ratio of one axis, as [createBlock] and [animate] compute it:
    [(pos - start + screen) / (size + screen)]. *)
Definition percentage (pos start screen size : number) : number :=
  div (add (sub pos start) screen) (add size screen).

(** The translation of one axis in [animate]: the component of
    [updatePosition] minus the stored base. *)
Definition position (round : bool) (percentage speed base : number) : number :=
  sub (calc round (raw speed percentage)) base.

End IEEE.

(** ** Data model *)

Record Point := mkPoint { x : Q; y : Q }.

Definition NodeId := nat.
Definition FnId := nat.

(** The value of the [wrapper] option: [null], a node (its [nodeType] is
    truthy), or a string (a selector; it has no [nodeType]). *)
Inductive WrapperOption :=
| WNull
| WNode (n : NodeId)
| WString (s : JS.str).

Module Options.
Record t := mk {
  speed : Q;
  center : bool;
  wrapper : WrapperOption;
  round : bool;
  vertical : bool;
  horizontal : bool
}.

(** The default settings of the constructor. *)
Definition default : t := mk (-2 # 1) false WNull true true false.

(** The options object a caller passes: any subset of the keys. *)
Record user := mkUser {
  u_speed : option Q;
  u_center : option bool;
  u_wrapper : option WrapperOption;
  u_round : option bool;
  u_vertical : option bool;
  u_horizontal : option bool
}.

Definition over {A} (o : option A) (d : A) : A :=
  match o with Some v => v | None => d end.

(** [Object.keys(options).forEach(key => that.options[key] = options[key])] *)
Definition merge (d : t) (u : user) : t :=
  mk (over (u_speed u) (speed d)) (over (u_center u) (center d))
     (over (u_wrapper u) (wrapper d)) (over (u_round u) (round d))
     (over (u_vertical u) (vertical d)) (over (u_horizontal u) (horizontal d)).
End Options.

(** The value written to [style[transformProp]]:
    ['translate3d(' + tx + 'px,' + ty + 'px,' + tz + 'px) ' + rest]. *)
Record Translate3d := mkTranslate {
  tx : Q;
  ty : Q;
  tz : JS.str;
  rest : JS.str
}.

(** The inline style of an element: the text last assigned to [cssText] (or
    authored in the markup) and the value assigned to the transform property
    since then. *)
Record Style := mkStyle {
  text : JS.str;
  transformProp : option Translate3d
}.

(** What the DOM answers about one element.  An attribute is [None] when it is
    absent or empty (both falsy); a present one is given by the number its
    string converts to. *)
Record Element := mkElement {
  data_rellax_percentage : option Q;
  data_rellax_speed : option Q;
  data_rellax_zindex : option JS.str;
  rect_top : Q;
  rect_left : Q;
  clientHeight : Q;
  offsetHeight : Q;
  scrollHeight : Q;
  clientWidth : Q;
  offsetWidth : Q;
  scrollWidth : Q;
  scrollTop : Q
}.

(** The browser: [window], [document], the elements and the frame clock. *)
Record World := mkWorld {
  innerHeight : Q;
  innerWidth : Q;
  pageXOffset : Q;
  pageYOffset : Q;
  docEl_clientHeight : Q;
  docEl_clientWidth : Q;
  docEl_scrollTop : Q;
  docEl_scrollLeft : Q;
  body_scrollTop : Q;
  body_scrollLeft : Q;
  element : NodeId -> Element;
  (** the answers of [document] to selectors, taken to be well formed *)
  querySelectorAll : JS.str -> list NodeId;
  querySelector : JS.str -> option NodeId;
  (** [self.options]: [None] when the global [self] has no [options]
      property, else the string form of its [wrapper]. *)
  self_options : option JS.str;
  (** how [cssText] reads once a transform property has been set *)
  serialize : JS.str -> Translate3d -> JS.str;
  (* mutable part *)
  style : NodeId -> Style;
  resize_listeners : list FnId;
  next_fn : FnId;
  frames : list FnId;
  callback_calls : nat
}.

Module Block.
Record t := mk {
  node : NodeId;
  baseX : Q;
  baseY : Q;
  top : Q;
  left : Q;
  height : Q;
  width : Q;
  speed : Q;
  style : JS.str;
  transform : JS.str;
  zIndex : JS.str
}.
End Block.

(** The instance the constructor fills in ([this]). *)
Record Instance := mkInstance {
  state_position : option Point;
  DOM_elements : list NodeId;
  DOM_wrapper : option NodeId;
  pos : Point;
  screen : Point;
  blocks : list Block.t;
  pause : bool;
  options : Options.t
}.

Definition set_state_position (this : Instance) (p : option Point) : Instance :=
  mkInstance p (DOM_elements this) (DOM_wrapper this) (pos this) (screen this)
             (blocks this) (pause this) (options this).

Definition set_pos (this : Instance) (p : Point) : Instance :=
  mkInstance (state_position this) (DOM_elements this) (DOM_wrapper this) p
             (screen this) (blocks this) (pause this) (options this).

Definition set_screen (this : Instance) (p : Point) : Instance :=
  mkInstance (state_position this) (DOM_elements this) (DOM_wrapper this)
             (pos this) p (blocks this) (pause this) (options this).

Definition set_blocks (this : Instance) (bs : list Block.t) : Instance :=
  mkInstance (state_position this) (DOM_elements this) (DOM_wrapper this)
             (pos this) (screen this) bs (pause this) (options this).

Definition set_pause (this : Instance) (b : bool) : Instance :=
  mkInstance (state_position this) (DOM_elements this) (DOM_wrapper this)
             (pos this) (screen this) (blocks this) b (options this).

Definition set_DOM_wrapper (this : Instance) (n : option NodeId) : Instance :=
  mkInstance (state_position this) (DOM_elements this) n (pos this)
             (screen this) (blocks this) (pause this) (options this).

(** Updates of the mutable part of the browser. *)
Definition with_style (w : World) (s : NodeId -> Style) : World :=
  mkWorld (innerHeight w) (innerWidth w) (pageXOffset w) (pageYOffset w)
          (docEl_clientHeight w) (docEl_clientWidth w) (docEl_scrollTop w)
          (docEl_scrollLeft w) (body_scrollTop w) (body_scrollLeft w)
          (element w) (querySelectorAll w) (querySelector w) (self_options w)
          (serialize w) s (resize_listeners w) (next_fn w) (frames w)
          (callback_calls w).

Definition with_listeners (w : World) (l : list FnId) : World :=
  mkWorld (innerHeight w) (innerWidth w) (pageXOffset w) (pageYOffset w)
          (docEl_clientHeight w) (docEl_clientWidth w) (docEl_scrollTop w)
          (docEl_scrollLeft w) (body_scrollTop w) (body_scrollLeft w)
          (element w) (querySelectorAll w) (querySelector w) (self_options w)
          (serialize w) (style w) l (next_fn w) (frames w) (callback_calls w).

Definition with_next_fn (w : World) (n : FnId) : World :=
  mkWorld (innerHeight w) (innerWidth w) (pageXOffset w) (pageYOffset w)
          (docEl_clientHeight w) (docEl_clientWidth w) (docEl_scrollTop w)
          (docEl_scrollLeft w) (body_scrollTop w) (body_scrollLeft w)
          (element w) (querySelectorAll w) (querySelector w) (self_options w)
          (serialize w) (style w) (resize_listeners w) n (frames w)
          (callback_calls w).

Definition with_frames (w : World) (l : list FnId) : World :=
  mkWorld (innerHeight w) (innerWidth w) (pageXOffset w) (pageYOffset w)
          (docEl_clientHeight w) (docEl_clientWidth w) (docEl_scrollTop w)
          (docEl_scrollLeft w) (body_scrollTop w) (body_scrollLeft w)
          (element w) (querySelectorAll w) (querySelector w) (self_options w)
          (serialize w) (style w) (resize_listeners w) (next_fn w) l
          (callback_calls w).

Definition with_callback_calls (w : World) (n : nat) : World :=
  mkWorld (innerHeight w) (innerWidth w) (pageXOffset w) (pageYOffset w)
          (docEl_clientHeight w) (docEl_clientWidth w) (docEl_scrollTop w)
          (docEl_scrollLeft w) (body_scrollTop w) (body_scrollLeft w)
          (element w) (querySelectorAll w) (querySelector w) (self_options w)
          (serialize w) (style w) (resize_listeners w) (next_fn w) (frames w) n.

(** [el.style.cssText = s] *)
Definition assign_cssText (w : World) (n : NodeId) (s : JS.str) : World :=
  with_style w (fun m => if Nat.eqb m n then mkStyle s None else style w m).

(** [el.style[transformProp] = t].  The style records the value that is
    assigned.  A browser parses the text and keeps it when it is a transform
    value; [plain_translation] below describes blocks for which the text that
    [animate] builds is one. *)
Definition assign_transform (w : World) (n : NodeId) (t : Translate3d) : World :=
  with_style w (fun m => if Nat.eqb m n
                         then mkStyle (text (style w m)) (Some t)
                         else style w m).

(** [el.style.cssText] *)
Definition read_cssText (w : World) (n : NodeId) : JS.str :=
  match transformProp (style w n) with
  | None => text (style w n)
  | Some t => serialize w (text (style w n)) t
  end.

(** [f.bind(this)]: a function object that did not exist before. *)
Definition bind (w : World) : FnId * World :=
  (next_fn w, with_next_fn w (S (next_fn w))).

(** [window.addEventListener('resize', f)] *)
Definition addEventListener (w : World) (f : FnId) : World :=
  if existsb (Nat.eqb f) (resize_listeners w) then w
  else with_listeners w (resize_listeners w ++ [f]).

(** [window.removeEventListener('resize', f)]: removes the listener that is
    this very function object, when there is one. *)
Definition removeEventListener (w : World) (f : FnId) : World :=
  with_listeners w (filter (fun g => negb (Nat.eqb g f)) (resize_listeners w)).

(** [loop(f)]: hand [f] to the frame clock. *)
Definition loop (w : World) (f : FnId) : World :=
  with_frames w (frames w ++ [f]).

(** [this.options.callback(this)]: user code; the model counts the calls. *)
Definition callback (w : World) : World :=
  with_callback_calls w (S (callback_calls w)).

(** ** The constructor's prototype *)

(** [updatePosition(percentageX, percentageY, speed)], over the rationals;
    [IEEE.updatePosition] is the same expression over doubles. *)
Definition updatePosition (this : Instance) (percentageX percentageY speed : Q)
  : Point :=
  let values := mkPoint (speed * (100 * (1 - percentageX)))
                        (speed * (100 * (1 - percentageY))) in
  let calc (a : Point -> Q) :=
    if Options.round (options this)
    then JS.Math_round (a values)
    else JS.Math_round (a values * 100) / 100 in
  mkPoint (calc x) (calc y).

(** The tail of [createBlock]: the inline transform found in the style text. *)
Definition extractTransform (style : JS.str) : JS.str :=
  if (0 <=? JS.indexOf style (JS.lit "transform"))%Z then
    let index := JS.indexOf style (JS.lit "transform") in
    let trimmedStyle := JS.slice style index None in
    let delimiter := JS.indexOf trimmedStyle (JS.lit ";") in
    let delimiter := if (delimiter =? -1)%Z then None else Some delimiter in
    JS.lit " " ++ JS.removeWhiteSpace (JS.slice trimmedStyle 11 delimiter)
  else [].

(** [createBlock(el)], one definition per local variable of the source. *)
Section createBlock.
Variables (this : Instance) (w : World) (el : NodeId).

Definition attr_percentage : option Q := data_rellax_percentage (element w el).
Definition attr_speed : option Q := data_rellax_speed (element w el).
Definition attr_zIndex : JS.str :=
  Options.over (data_rellax_zindex (element w el)) (JS.lit "0").

(** [attr.percentage || this.options.center] as a condition *)
Definition anchored : bool :=
  match attr_percentage with
  | Some _ => true
  | None => Options.center (options this)
  end.

Definition wrapperPosY : Q :=
  match DOM_wrapper this with
  | Some wr => scrollTop (element w wr)
  | None => JS.or (JS.or (pageYOffset w) (docEl_scrollTop w)) (body_scrollTop w)
  end.

Definition posY : Q :=
  if Options.vertical (options this)
  then (if anchored then wrapperPosY else 0)
  else 0.

Definition posX : Q :=
  if Options.horizontal (options this)
  then (if anchored
        then JS.or (JS.or (pageXOffset w) (docEl_scrollLeft w)) (body_scrollLeft w)
        else 0)
  else 0.

Definition blockTop : Q := posY + rect_top (element w el).
Definition blockLeft : Q := posX + rect_left (element w el).

Definition blockHeight : Q :=
  JS.or (JS.or (clientHeight (element w el)) (offsetHeight (element w el)))
        (scrollHeight (element w el)).
Definition blockWidth : Q :=
  JS.or (JS.or (clientWidth (element w el)) (offsetWidth (element w el)))
        (scrollWidth (element w el)).

(** The seed percentages.  The quotient of the default mode is the exact
    one; its divisor is zero only for an element of size zero in a viewport
    of size zero, where the source has [NaN] or an infinity
    ([IEEE.percentage]). *)
Definition percentageY : Q :=
  if Options.center (options this) then 1 # 2
  else match attr_percentage with
       | Some p => p
       | None => (posY - blockTop + y (screen this)) / (blockHeight + y (screen this))
       end.

Definition percentageX : Q :=
  if Options.center (options this) then 1 # 2
  else match attr_percentage with
       | Some p => p
       | None => (posX - blockLeft + x (screen this)) / (blockWidth + x (screen this))
       end.

Definition speed : Q :=
  match attr_speed with
  | Some s => s
  | None => Options.speed (options this)
  end.

Definition bases : Point := updatePosition this percentageX percentageY speed.

Definition createBlock : Block.t :=
  let style := read_cssText w el in
  Block.mk el (x bases) (y bases) blockTop blockLeft blockHeight blockWidth
           speed style (extractTransform style) attr_zIndex.
End createBlock.

(** [cacheBlocks()] *)
Definition cacheBlocks (this : Instance) (w : World) : Instance :=
  fold_left (fun t el => set_blocks t (blocks t ++ [createBlock t w el]))
            (DOM_elements this) this.

(** [setPosition()]: the new instance and the returned boolean. *)
Definition setPosition (this : Instance) (w : World) : bool * Instance :=
  let prevPos := mkPoint (x (pos this)) (y (pos this)) in
  let this' :=
    set_pos this
      (mkPoint (x (pos this))
               (match DOM_wrapper this with
                | Some wr => scrollTop (element w wr)
                | None => JS.or (docEl_scrollTop w) (pageYOffset w)
                end)) in
  if JS.neq (y prevPos) (y (pos this')) && Options.vertical (options this')
  then (true, this')
  else if JS.neq (x prevPos) (x (pos this')) && Options.horizontal (options this')
  then (true, this')
  else (false, this').

(** The body of the loop of [animate] for one block.  The quotients are
    exact, with the same proviso on their divisors as at capture. *)
Definition percentages (this : Instance) (b : Block.t) : Point :=
  mkPoint ((x (pos this) - Block.left b + x (screen this))
             / (Block.width b + x (screen this)))
          ((y (pos this) - Block.top b + y (screen this))
             / (Block.height b + y (screen this))).

Definition positions (this : Instance) (b : Block.t) : Point :=
  updatePosition this (x (percentages this b)) (y (percentages this b))
                 (Block.speed b).

(** On a disabled axis the source writes the literal ['0']. *)
Definition translate (this : Instance) (b : Block.t) : Translate3d :=
  let positionY := y (positions this b) - Block.baseY b in
  let positionX := x (positions this b) - Block.baseX b in
  mkTranslate (if Options.horizontal (options this) then positionX else 0)
              (if Options.vertical (options this) then positionY else 0)
              (Block.zIndex b) (Block.transform b).

(** The loop of [animate]: element [i] goes with block [i].  The source
    indexes both arrays with the same counter and would raise a [TypeError]
    on a missing block; [init] leaves as many blocks as elements, so the
    traversal in step stops where the source stops. *)
Fixpoint animate_loop (this : Instance) (w : World)
         (els : list NodeId) (bs : list Block.t) : Instance * World :=
  match els, bs with
  | e :: els', b :: bs' =>
      animate_loop (set_state_position this (Some (positions this b)))
                   (assign_transform w e (translate this b)) els' bs'
  | _, _ => (this, w)
  end.

(** [animate()] *)
Definition animate (this : Instance) (w : World) : Instance * World :=
  let (this', w') := animate_loop this w (DOM_elements this) (blocks this) in
  (this', callback w').

(** [update()] *)
Definition update (this : Instance) (w : World) : Instance * World :=
  let (changed, this1) := setPosition this w in
  let (this2, w2) :=
    if changed && negb (pause this1) then animate this1 w else (this1, w) in
  let (f, w3) := bind w2 in
  (this2, loop w3 f).

(** The loops of [init] and [destroy] that put the saved style text back,
    element [i] from block [i] as above. *)
Fixpoint restore_styles (w : World) (els : list NodeId) (bs : list Block.t)
  : World :=
  match els, bs with
  | e :: els', b :: bs' => restore_styles (assign_cssText w e (Block.style b)) els' bs'
  | _, _ => w
  end.

(** [init()], which [refresh] aliases. *)
Definition init (this : Instance) (w : World) : Instance * World :=
  let w1 := restore_styles w (DOM_elements this) (blocks this) in
  let this1 := set_blocks this [] in
  let this2 :=
    set_screen this1 (mkPoint (x (screen this1))
                              (JS.or (innerHeight w1) (docEl_clientHeight w1))) in
  let this3 :=
    set_screen this2 (mkPoint (JS.or (innerWidth w1) (docEl_clientWidth w1))
                              (y (screen this2))) in
  let this4 := snd (setPosition this3 w1) in
  let this5 := cacheBlocks this4 w1 in
  let (this6, w2) := animate this5 w1 in
  update this6 w2.

Definition refresh := init.

(** [onwindowResize()] *)
Definition onwindowResize := init.

(** [destroy()] *)
Definition destroy (this : Instance) (w : World) : Instance * World :=
  let w1 := restore_styles w (DOM_elements this) (blocks this) in
  let this1 := set_pause this true in
  let (f, w2) := bind w1 in
  (this1, removeEventListener w2 f).

(** ** The constructor *)

Inductive Exception :=
| Error (message : string)
| TypeError.

(** The first argument: nothing, [null], a string, or an [HTMLElement]. *)
Inductive Target :=
| TUndefined
| TNull
| TString (s : JS.str)
| TNode (n : NodeId).

(** The falsy targets: [undefined], [null] and the empty string. *)
Definition falsy (el : Target) : bool :=
  match el with
  | TUndefined | TNull | TString [] => true
  | _ => false
  end.

(** [el || '.rellax'] *)
Definition or_default (el : Target) : Target :=
  if falsy el then TString (JS.lit ".rellax") else el.

(** [el instanceof HTMLElement ? [el] : document.querySelectorAll(el)] *)
Definition resolve (w : World) (el : Target) : list NodeId :=
  match el with
  | TNode n => [n]
  | TString s => querySelectorAll w s
  | TUndefined => querySelectorAll w (JS.lit "undefined")
  | TNull => querySelectorAll w (JS.lit "null")
  end.

(** The end of the constructor, once elements and wrapper are settled. *)
Definition start (this : Instance) (w : World) : Instance * World :=
  let (this1, w1) := init this w in
  let (f, w2) := bind w1 in
  (this1, addEventListener w2 f).

(** [new Rellax(el, options)] *)
Definition Rellax (el : Target) (user_options : option Options.user) (w : World)
  : Exception + Instance * World :=
  let el := or_default el in
  let options := match user_options with
                 | Some u => Options.merge Options.default u
                 | None => Options.default
                 end in
  let elements := resolve w el in
  let this := mkInstance None elements None (mkPoint 0 0) (mkPoint 0 0) []
                         false options in
  if Nat.eqb (List.length elements) 0
  then inl (Error "The elements you're trying to select don't exist.")
  else match Options.wrapper options with
       | WString (_ :: _) =>
           match self_options w with
           | None => inl TypeError
           | Some selector =>
               match querySelector w selector with
               | Some n => inr (start (set_DOM_wrapper this (Some n)) w)
               | None => inl (Error "The wrapper you're trying to use don't exist.")
               end
           end
       | _ => inr (start this w)
       end.

(** What the browser does with the instance between two calls of its
    methods: the frame clock runs the oldest pending callback, which is a
    bound [update]; a resize of the window runs every registered listener,
    each a bound [onwindowResize]. *)
Definition frame (this : Instance) (w : World) : Instance * World :=
  match frames w with
  | [] => (this, w)
  | _ :: fs => update this (with_frames w fs)
  end.

Definition resize (this : Instance) (w : World) : Instance * World :=
  fold_left (fun s _ => onwindowResize (fst s) (snd s)) (resize_listeners w)
            (this, w).

(** ** Events of the page *)

(** The user scrolls the document to the offsets [(sx, sy)]: the window and
    the document report the new offsets, and the bounding rectangles, which
    are relative to the viewport, move the other way. *)
Definition scrolled (e : Element) (dx dy : Q) : Element :=
  mkElement (data_rellax_percentage e) (data_rellax_speed e) (data_rellax_zindex e)
            (rect_top e - dy) (rect_left e - dx)
            (clientHeight e) (offsetHeight e) (scrollHeight e)
            (clientWidth e) (offsetWidth e) (scrollWidth e) (scrollTop e).

Definition scroll_to (w : World) (sx sy : Q) : World :=
  mkWorld (innerHeight w) (innerWidth w) sx sy
          (docEl_clientHeight w) (docEl_clientWidth w) sy sx
          (body_scrollTop w) (body_scrollLeft w)
          (fun n => scrolled (element w n) (sx - pageXOffset w) (sy - pageYOffset w))
          (querySelectorAll w) (querySelector w) (self_options w)
          (serialize w) (style w) (resize_listeners w) (next_fn w) (frames w)
          (callback_calls w).

(** Another script of the page declares a global [options] object whose
    [wrapper] has the string form [selector]. *)
Definition declare_global_options (w : World) (selector : JS.str) : World :=
  mkWorld (innerHeight w) (innerWidth w) (pageXOffset w) (pageYOffset w)
          (docEl_clientHeight w) (docEl_clientWidth w) (docEl_scrollTop w)
          (docEl_scrollLeft w) (body_scrollTop w) (body_scrollLeft w)
          (element w) (querySelectorAll w) (querySelector w) (Some selector)
          (serialize w) (style w) (resize_listeners w) (next_fn w) (frames w)
          (callback_calls w).

(** ** A sample page

    A viewport of 800 by 600 at the top of a document with two elements of
    class [rellax] (node 0 without attributes, node 1 with
    [data-rellax-percentage="0.5"], [data-rellax-speed="7"] and
    [data-rellax-zindex="5"]) and a container [#main] (node 2). *)

Module Page.

Fixpoint eqb (a b : JS.str) : bool :=
  match a, b with
  | [], [] => true
  | c :: a', d :: b' => N.eqb c d && eqb a' b'
  | _, _ => false
  end.

Definition node0 : Element :=
  mkElement None None None 300 40 100 100 100 200 200 200 0.

Definition node1 : Element :=
  mkElement (Some (1 # 2)) (Some 7) (Some (JS.lit "5"))
            900 0 150 150 150 400 400 400 0.

Definition main : Element :=
  mkElement None None None 0 0 600 600 2000 800 800 800 0.

Definition world : World :=
  mkWorld 600 800 0 0 600 800 0 0 0 0
          (fun n => match n with
                    | O => node0
                    | S O => node1
                    | _ => main
                    end)
          (fun s => if eqb s (JS.lit ".rellax") then [0; 1]%nat else [])
          (fun s => if eqb s (JS.lit "#main") then Some 2%nat else None)
          None
          (fun css t => css ++ JS.lit " transform: translate3d() " ++ rest t)
          (fun n => match n with
                    | S O => mkStyle (JS.lit "transform: rotate(45deg);") None
                    | _ => mkStyle (JS.lit "color: red;") None
                    end)
          [] 0%nat [] 0%nat.

(** [{ wrapper: s }] *)
Definition with_wrapper (s : string) : Options.user :=
  Options.mkUser None None (Some (WString (JS.lit s))) None None None.

(** [{ center: true }] *)
Definition centered : Options.user :=
  Options.mkUser None (Some true) None None None None.

(** [{ horizontal: true }] *)
Definition sideways : Options.user :=
  Options.mkUser None None None None None (Some true).

(** The instance a constructor call left, on a page where it succeeds. *)
Definition built (r : Exception + Instance * World) : Instance * World :=
  match r with
  | inr s => s
  | inl _ => (mkInstance None [] None (mkPoint 0 0) (mkPoint 0 0) [] false
                         Options.default, world)
  end.

End Page.

(** ** The transform property of the browser

    The value of [transformProp], computed once when the script is loaded:
    [window.transformProp] when it is truthy, else the result of probing the
    style of a fresh [p] element. *)

(** What reading a property of a style object gives. *)
Inductive StyleValue :=
| SUndefined
| SNull
| SText (s : JS.str).

Definition vendors : list JS.str := [JS.lit "Webkit"; JS.lit "Moz"; JS.lit "ms"].

(** The [for (var vendor in vendors)] loop: the first prefixed property that
    is not [undefined]. *)
Fixpoint probe_vendors (testEl_style : JS.str -> StyleValue) (vs : list JS.str)
  : option JS.str :=
  match vs with
  | [] => None
  | v :: vs' =>
      match testEl_style (v ++ JS.lit "Transform") with
      | SUndefined => probe_vendors testEl_style vs'
      | _ => Some (v ++ JS.lit "Transform")
      end
  end.

Definition detect_transformProp (window_transformProp : option JS.str)
           (testEl_style : JS.str -> StyleValue) : JS.str :=
  match window_transformProp with
  | Some (c :: p) => c :: p
  | _ =>
      match testEl_style (JS.lit "transform") with
      | SNull =>
          match probe_vendors testEl_style vendors with
          | Some name => name
          | None => JS.lit "transform"
          end
      | _ => JS.lit "transform"
      end
  end.

(** ** Notions used by the further properties *)

(** What the page answers, as opposed to what the library writes. *)
Definition environment (w : World) :=
  (innerHeight w, innerWidth w, pageXOffset w, pageYOffset w,
   docEl_clientHeight w, docEl_clientWidth w, docEl_scrollTop w,
   docEl_scrollLeft w, body_scrollTop w, body_scrollLeft w,
   element w, querySelectorAll w, querySelector w, self_options w, serialize w).

(** Every tracked element carries, as the value of its transform property,
    the translation of its block at the stored scroll offset. *)
Definition rendered (this : Instance) (w : World) : Prop :=
  forall e b,
    In (e, b) (combine (DOM_elements this) (blocks this)) ->
    transformProp (style w e) = Some (translate this b).



(** ** What the specification says of the transform fragment

    Section 4.1 of the specification, word for word: the fragment is
    everything between the [transform] property name and its terminating
    semicolon, or the end of the string.  It is compared below with
    [extractTransform], which is the source's. *)

Fixpoint upto_semicolon (s : JS.str) : JS.str :=
  match s with
  | [] => []
  | c :: s' => if (c =? 59)%N then [] else c :: upto_semicolon s'
  end.

Definition spec_transformFragment (style : JS.str) : JS.str :=
  let index := JS.indexOf style (JS.lit "transform") in
  if (0 <=? index)%Z
  then upto_semicolon (skipn (Z.to_nat index + 9) style)
  else [].

(** Where a declaration may begin in a style text: at its start, or after
    the semicolon that ends the declaration before it and the white space
    that follows. *)
Definition declaration_start (pre : JS.str) : Prop :=
  pre = []
  \/ exists before space,
       pre = before ++ [59%N] ++ space /\ forallb JS.isWhiteSpace space = true.

(** [style] holds a transform declaration: the property name at a place
    where a declaration begins, the [": "] of the serialised form, then the
    value and whatever follows it. *)
Definition transform_declaration (style pre after : JS.str) : Prop :=
  style = pre ++ JS.lit "transform: " ++ after /\ declaration_start pre.

(** ** Predicates used in the statements *)

(** The part of an instance that no method changes after construction. *)
Definition settings (t : Instance) : list NodeId * option NodeId * Options.t :=
  (DOM_elements t, DOM_wrapper t, options t).

(** Every registered function object is older than the next one to be made. *)
Definition listeners_known (w : World) : Prop :=
  forall f, In f (resize_listeners w) -> (f < next_fn w)%nat.

(** * Properties *)

(** ** Rounding *)

(** [Math.round] is at most one half away from its argument, and takes the
    upper neighbour on a tie. *)
Lemma Math_round_nearest (a : Q) :
  a - (1 # 2) < JS.Math_round a /\ JS.Math_round a <= a + (1 # 2).
Proof.
  unfold JS.Math_round. split.
  - pose proof (Qlt_floor (a + (1 # 2))) as H.
    rewrite inject_Z_plus in H.
    change (inject_Z 1) with 1 in H.
    set (k := inject_Z (Qfloor (a + (1 # 2)))) in *.
    lra.
  - apply Qfloor_le.
Qed.

Lemma Math_round_compat (a b : Q) : a == b -> JS.Math_round a = JS.Math_round b.
Proof.
  intros E. unfold JS.Math_round. f_equal. apply Qfloor_comp. rewrite E. reflexivity.
Qed.

(** *** Rounding in double arithmetic *)

Section Doubles.
Local Open Scope Z_scope.

Lemma digits2_pos_iter (k m : positive) :
  digits2_pos (Pos.iter xO m k) = (digits2_pos m + k)%positive.
Proof.
  induction k using Pos.peano_ind.
  - simpl. now rewrite Pos.add_1_r.
  - rewrite Pos.iter_succ. simpl. rewrite IHk. now rewrite Pos.add_succ_r.
Qed.

Lemma iter_xO_pow (k m : positive) :
  Zpos (Pos.iter xO m k) = Zpos m * 2 ^ Zpos k.
Proof.
  induction k using Pos.peano_ind.
  - simpl. lia.
  - rewrite Pos.iter_succ, Pos2Z.inj_xO, IHk, Pos2Z.inj_succ, Z.pow_succ_r by lia. lia.
Qed.

(** Shifting a mantissa to the right never lowers the exponent. *)
Lemma shr_exponent (mrs : shr_record) (e n : Z) : e <= snd (shr mrs e n).
Proof. destruct n; simpl; lia. Qed.

Lemma binary_round_aux_exponent (s : bool) (mx ex : Z) (lx : location) :
  match binary_round_aux IEEE.prec IEEE.emax s mx ex lx with
  | S754_finite _ _ e => ex <= e
  | _ => True
  end.
Proof.
  unfold binary_round_aux.
  pose proof (shr_exponent (shr_record_of_loc mx lx) ex
                (fexp IEEE.prec IEEE.emax (Zdigits2 mx + ex) - ex)) as H1.
  fold (shr_fexp IEEE.prec IEEE.emax mx ex lx) in H1.
  destruct (shr_fexp IEEE.prec IEEE.emax mx ex lx) as [mrs' e'].
  set (m' := round_nearest_even (shr_m mrs') (loc_of_shr_record mrs')).
  pose proof (shr_exponent (shr_record_of_loc m' loc_Exact) e'
                (fexp IEEE.prec IEEE.emax (Zdigits2 m' + e') - e')) as H2.
  fold (shr_fexp IEEE.prec IEEE.emax m' e' loc_Exact) in H2.
  destruct (shr_fexp IEEE.prec IEEE.emax m' e' loc_Exact) as [mrs'' e''].
  simpl in H1, H2.
  destruct (shr_m mrs''); trivial.
  destruct (e'' <=? _); trivial. lia.
Qed.

(** A mantissa that already has the digits its exponent asks for is not
    rounded. *)
Lemma binary_round_aux_canonical (s : bool) (m : positive) (e : Z) :
  fexp IEEE.prec IEEE.emax (Zpos (digits2_pos m) + e) = e ->
  binary_round_aux IEEE.prec IEEE.emax s (Zpos m) e loc_Exact
  = if e <=? IEEE.emax - IEEE.prec then S754_finite s m e else S754_infinity s.
Proof.
  intros H.
  assert (S : shr_fexp IEEE.prec IEEE.emax (Zpos m) e loc_Exact
              = ({| shr_m := Zpos m; shr_r := false; shr_s := false |}, e)).
  { unfold shr_fexp. change (Zdigits2 (Zpos m)) with (Zpos (digits2_pos m)).
    now rewrite H, Z.sub_diag. }
  unfold binary_round_aux. rewrite S.
  change (round_nearest_even _ _) with (Zpos m). now rewrite S.
Qed.

(** The double of an integer mantissa at exponent zero is an integer: either
    the mantissa fits and is kept, shifted to the left, or it is rounded at
    an exponent that is positive. *)
Lemma binary_round_integer (s : bool) (m : positive) :
  IEEE.is_finite (binary_round IEEE.prec IEEE.emax s m 0) = true ->
  IEEE.is_integer (binary_round IEEE.prec IEEE.emax s m 0) = true.
Proof.
  unfold binary_round, shl_align.
  set (d := Zpos (digits2_pos m)).
  assert (Hd : 0 < d) by (unfold d; lia).
  destruct (fexp IEEE.prec IEEE.emax (d + 0) - 0) as [|p|k] eqn:E.
  - pose proof (binary_round_aux_exponent s (Zpos m) 0 loc_Exact) as H.
    destruct (binary_round_aux _ _ _ _ _ _); trivial.
    intros _. simpl. apply orb_true_iff. left. now apply Z.leb_le.
  - pose proof (binary_round_aux_exponent s (Zpos m) 0 loc_Exact) as H.
    destruct (binary_round_aux _ _ _ _ _ _); trivial.
    intros _. simpl. apply orb_true_iff. left. now apply Z.leb_le.
  - assert (F : fexp IEEE.prec IEEE.emax (d + 0) = Zneg k) by lia.
    rewrite F.
    rewrite binary_round_aux_canonical.
    + destruct (Z.neg k <=? _); trivial.
      intros _. unfold IEEE.is_integer. change (- Z.neg k) with (Zpos k).
      rewrite iter_xO_pow, Z.mod_mul by lia. reflexivity.
    + rewrite digits2_pos_iter. fold d in F |- *.
      unfold fexp, emin, IEEE.prec, IEEE.emax in *.
      rewrite Pos2Z.inj_add. fold d. lia.
Qed.

Lemma of_Z_is_integer (n : Z) :
  IEEE.is_finite (IEEE.of_Z n) = true -> IEEE.is_integer (IEEE.of_Z n) = true.
Proof.
  destruct n as [|p|p].
  - intros _. reflexivity.
  - exact (binary_round_integer false p).
  - exact (binary_round_integer true p).
Qed.

Lemma Math_round_is_integer (a : IEEE.number) :
  IEEE.is_finite (IEEE.Math_round a) = true ->
  IEEE.is_integer (IEEE.Math_round a) = true.
Proof.
  destruct a as [s|s| |s m e]; simpl; trivial.
  destruct (0 <=? e) eqn:E.
  - intros _. simpl. now rewrite E.
  - destruct (_ =? 0); [reflexivity | apply of_Z_is_integer].
Qed.

(** What the two tests on mantissa and exponent decide. *)
Lemma is_integer_spec (a : IEEE.number) :
  IEEE.is_finite a = true ->
  (IEEE.is_integer a = true <-> exists z : Z, (IEEE.to_Q a == inject_Z z)%Q).
Proof.
  destruct a as [s | s | | s m e]; try discriminate; intros _.
  - split; [exists 0; reflexivity | reflexivity].
  - unfold IEEE.is_integer, IEEE.to_Q.
    destruct (Z.leb_spec 0 e) as [He | He].
    + split; [intros _; eexists; reflexivity | reflexivity].
    + cbn [orb]. set (P := 2 ^ (- e)).
      assert (HP : 0 < P) by (apply Z.pow_pos_nonneg; lia).
      unfold Qeq. cbn [Qnum Qden inject_Z]. rewrite Z2Pos.id by exact HP.
      rewrite Z.eqb_eq. split.
      * intros H. apply Z.mod_divide in H; [| lia]. destruct H as [q Hq].
        exists (cond_Zopp s q). destruct s; cbn [cond_Zopp]; lia.
      * intros [z Hz]. apply Z.mod_divide; [lia |].
        exists (cond_Zopp s z). destruct s; cbn [cond_Zopp] in *; lia.
Qed.

Lemma is_multiple_of_hundredth_spec (a : IEEE.number) :
  IEEE.is_finite a = true ->
  (IEEE.is_multiple_of_hundredth a = true
   <-> exists k : Z, (IEEE.to_Q a == inject_Z k * (1 # 100))%Q).
Proof.
  destruct a as [s | s | | s m e]; try discriminate; intros _.
  - split; [exists 0; reflexivity | reflexivity].
  - unfold IEEE.is_multiple_of_hundredth, IEEE.to_Q.
    destruct (Z.leb_spec 0 e) as [He | He].
    + split; [intros _ | reflexivity].
      exists (100 * (cond_Zopp s (Zpos m) * 2 ^ e)).
      unfold Qeq. cbn [Qnum Qden inject_Z Qmult]. lia.
    + cbn [orb]. set (P := 2 ^ (- e)).
      assert (HP : 0 < P) by (apply Z.pow_pos_nonneg; lia).
      unfold Qeq. cbn [Qnum Qden inject_Z Qmult]. rewrite Z2Pos.id by exact HP.
      rewrite Z.eqb_eq. split.
      * intros H. apply Z.mod_divide in H; [| lia]. destruct H as [q Hq].
        exists (cond_Zopp s q). destruct s; cbn [cond_Zopp]; lia.
      * intros [z Hz]. apply Z.mod_divide; [lia |].
        exists (cond_Zopp s z). destruct s; cbn [cond_Zopp] in *; lia.
Qed.

(** [Math.round] returns an integer, an infinity or [NaN]. *)
Lemma Math_round_integral (a : IEEE.number) : IEEE.integral (IEEE.Math_round a).
Proof.
  intros F. apply is_integer_spec; [exact F |]. apply Math_round_is_integer, F.
Qed.

(** A number minus itself: zero when it is finite, [NaN] when it is not. *)
Lemma sub_diag (a : IEEE.number) :
  IEEE.sub a a = if IEEE.is_finite a then S754_zero false else S754_nan.
Proof.
  destruct a as [[|]|[|]| |s m e]; try reflexivity.
  unfold IEEE.sub, SFsub. cbv zeta. now rewrite Z.sub_diag.
Qed.

Lemma digits2_pos_bounds (p : positive) :
  2 ^ (Zpos (digits2_pos p) - 1) <= Zpos p < 2 ^ Zpos (digits2_pos p).
Proof.
  induction p as [p IH | p IH |]; cbn [digits2_pos].
  - rewrite Pos2Z.inj_succ, Z.pow_succ_r by lia.
    replace (Z.succ (Zpos (digits2_pos p)) - 1) with (Z.succ (Zpos (digits2_pos p) - 1))
      by lia.
    rewrite Z.pow_succ_r by lia. lia.
  - rewrite Pos2Z.inj_succ, Z.pow_succ_r by lia.
    replace (Z.succ (Zpos (digits2_pos p)) - 1) with (Z.succ (Zpos (digits2_pos p) - 1))
      by lia.
    rewrite Z.pow_succ_r by lia. lia.
  - simpl. lia.
Qed.

(** A mantissa of at most 53 digits at exponent zero is kept as it is. *)
Lemma binary_round_exact (s : bool) (p : positive) :
  Zpos (digits2_pos p) <= 53 ->
  exists k m,
    binary_round IEEE.prec IEEE.emax s p 0 = S754_finite s m (- k)
    /\ 0 <= k /\ Zpos m = Zpos p * 2 ^ k.
Proof.
  intros Hd. unfold binary_round, shl_align.
  set (d := Zpos (digits2_pos p)) in *.
  assert (H0 : 0 < d) by (unfold d; lia).
  assert (F : fexp IEEE.prec IEEE.emax (d + 0) = d - 53)
    by (unfold fexp, emin, IEEE.prec, IEEE.emax; lia).
  rewrite F.
  destruct (d - 53 - 0) as [| q | k] eqn:E; [| lia |].
  - exists 0, p. rewrite binary_round_aux_canonical.
    + split; [reflexivity |]. split; [lia |]. lia.
    + fold d. rewrite F. lia.
  - exists (Zpos k), (Pos.iter xO p k).
    replace (d - 53) with (Z.neg k) by lia.
    rewrite binary_round_aux_canonical.
    + destruct (Z.leb_spec (Z.neg k) (IEEE.emax - IEEE.prec)) as [_ | B];
        [| unfold IEEE.emax, IEEE.prec in B; lia].
      split; [reflexivity |]. split; [lia |]. apply iter_xO_pow.
    + rewrite digits2_pos_iter, Pos2Z.inj_add. fold d.
      unfold fexp, emin, IEEE.prec, IEEE.emax. lia.
Qed.

(** Integers below [2^53] in absolute value are doubles. *)
Lemma of_Z_exact (n : Z) :
  Z.abs n < 2 ^ 53 -> (IEEE.to_Q (IEEE.of_Z n) == inject_Z n)%Q.
Proof.
  intros B.
  assert (G : forall s p, Zpos p < 2 ^ 53 ->
                (IEEE.to_Q (binary_round IEEE.prec IEEE.emax s p 0)
                 == inject_Z (cond_Zopp s (Zpos p)))%Q).
  { intros s p Hp.
    destruct (binary_round_exact s p) as [k [m [E [Hk Hm]]]].
    - pose proof (digits2_pos_bounds p) as [L _].
      destruct (Z.le_gt_cases (Zpos (digits2_pos p)) 53) as [A | A]; [exact A |].
      assert (2 ^ 53 <= 2 ^ (Zpos (digits2_pos p) - 1))
        by (apply Z.pow_le_mono_r; lia).
      lia.
    - rewrite E. unfold IEEE.to_Q.
      destruct (Z.leb_spec 0 (- k)) as [A | A].
      + assert (k = 0) by lia. subst k. rewrite Z.pow_0_r in Hm.
        change (- 0) with 0. rewrite Z.pow_0_r.
        replace (cond_Zopp s (Zpos m) * 1) with (cond_Zopp s (Zpos p))
          by (destruct s; cbn [cond_Zopp]; lia).
        reflexivity.
      + rewrite Z.opp_involutive. unfold Qeq. cbn [Qnum Qden inject_Z].
        rewrite Z2Pos.id by (apply Z.pow_pos_nonneg; lia).
        destruct s; cbn [cond_Zopp]; rewrite Hm; lia. }
  destruct n as [| p | p].
  - reflexivity.
  - apply (G false p). exact B.
  - apply (G true p). exact B.
Qed.

(** [IEEE.Math_round] is [floor(a + 1/2)] of the exact value, which is what
    [JS.Math_round] computes over the rationals. *)
Lemma Math_round_agrees (a : IEEE.number) :
  valid_binary IEEE.prec IEEE.emax a = true ->
  (IEEE.to_Q (IEEE.Math_round a) == JS.Math_round (IEEE.to_Q a))%Q.
Proof.
  destruct a as [s | s | | s m e]; try (intros _; reflexivity).
  intros V. cbn [valid_binary] in V. unfold bounded, canonical_mantissa in V.
  apply andb_true_iff in V. destruct V as [V _]. apply Z.eqb_eq in V.
  assert (Hd : Zpos (digits2_pos m) <= 53)
    by (unfold fexp, emin, IEEE.prec, IEEE.emax in V; lia).
  pose proof (digits2_pos_bounds m) as [_ Hm].
  assert (Hm' : Zpos m < 2 ^ 53).
  { apply Z.lt_le_trans with (1 := Hm). apply Z.pow_le_mono_r; lia. }
  unfold IEEE.Math_round, IEEE.to_Q at 2.
  destruct (Z.leb_spec 0 e) as [He | He].
  - unfold IEEE.to_Q. destruct (Z.leb_spec 0 e); [| lia].
    unfold JS.Math_round, Qfloor, Qplus. cbn [Qnum Qden inject_Z].
    set (z := cond_Zopp s (Zpos m) * 2 ^ e).
    assert (Ez : (z * 2 + 1 * 1) / 2 = z)
      by (symmetry; apply Z.div_unique with (r := 1); lia).
    change (Z.pos (1 * 2)) with 2. rewrite Ez. reflexivity.
  - set (k := - e). assert (Hk : 1 <= k) by (unfold k; lia).
    replace (1 - e) with (Z.succ k) by (unfold k; lia).
    rewrite Z.pow_succ_r by lia.
    set (P := 2 ^ k). assert (HP : 2 <= P).
    { unfold P. change 2 with (2 ^ 1) at 1. apply Z.pow_le_mono_r; lia. }
    set (sm := cond_Zopp s (Zpos m)).
    assert (Hs : - 2 ^ 53 < sm < 2 ^ 53) by (unfold sm; destruct s; cbn [cond_Zopp]; lia).
    set (n := (2 * sm + P) / (2 * P)).
    assert (E : JS.Math_round (sm # Z.to_pos P) = inject_Z n).
    { unfold JS.Math_round, Qfloor, Qplus. cbn [Qnum Qden].
      rewrite Pos2Z.inj_mul, Z2Pos.id by lia. unfold n. do 2 f_equal; lia. }
    rewrite E.
    destruct (Z.eqb_spec n 0) as [-> | Hn]; [reflexivity |].
    apply of_Z_exact.
    assert (U : n < 2 ^ 53).
    { unfold n. apply Z.div_lt_upper_bound; [lia |]. nia. }
    assert (L : - 2 ^ 53 < n).
    { unfold n. apply Z.lt_le_trans with (- 2 ^ 53 + 1); [lia |].
      apply Z.div_le_lower_bound; [lia |]. nia. }
    lia.
Qed.

End Doubles.

(** [Math.round] on doubles at some arguments: ties go up, [-0.5] and
    [-0.2] give [-0], and the largest double below one half gives [0]. *)
Example Math_round_samples :
  IEEE.Math_round (IEEE.decimal 25 10) = IEEE.of_Z 3
  /\ IEEE.Math_round (IEEE.decimal (-25) 10) = IEEE.of_Z (-2)
  /\ IEEE.Math_round (IEEE.decimal (-26) 10) = IEEE.of_Z (-3)
  /\ IEEE.Math_round (IEEE.decimal (-5) 10) = S754_zero true
  /\ IEEE.Math_round (IEEE.decimal (-2) 10) = S754_zero true
  /\ IEEE.Math_round (S754_finite false 9007199254740991 (-54)) = S754_zero false
  /\ IEEE.Math_round (IEEE.of_Z (10 ^ 300)) = IEEE.of_Z (10 ^ 300)
  /\ IEEE.Math_round S754_nan = S754_nan.
Proof. vm_compute. repeat split. Qed.

(** C6, as amended.  [updatePosition] in double arithmetic.  With the [round]
    option both components are [Math.round] of the raw value
    [speed * (100 * (1 - percentage))] of their axis, and integers whenever
    they are finite.  Without it both components are
    [Math.round(v * 100) / 100] of the raw value [v]: the quotient by 100,
    rounded to the nearest double, of a number that is an integer whenever it
    is finite. *)
Theorem updatePosition_rounding (round : bool) (pX pY speed : IEEE.number) :
  let r := IEEE.updatePosition round pX pY speed in
  if round
  then (fst r = IEEE.Math_round (IEEE.raw speed pX) /\ IEEE.integral (fst r))
       /\ (snd r = IEEE.Math_round (IEEE.raw speed pY) /\ IEEE.integral (snd r))
  else (exists k,
           k = IEEE.Math_round (IEEE.mul (IEEE.raw speed pX) (IEEE.of_Z 100))
           /\ IEEE.integral k
           /\ fst r = IEEE.div k (IEEE.of_Z 100))
       /\ (exists k,
              k = IEEE.Math_round (IEEE.mul (IEEE.raw speed pY) (IEEE.of_Z 100))
              /\ IEEE.integral k
              /\ snd r = IEEE.div k (IEEE.of_Z 100)).
Proof.
  destruct round; cbv zeta; unfold IEEE.updatePosition, IEEE.calc; cbn [fst snd].
  - repeat split; exact (Math_round_integral _).
  - split; eexists; (split; [reflexivity |]);
      (split; [exact (Math_round_integral _) | reflexivity]).
Qed.

(** C6, as stated, fails.  Without the [round] option, at the percentage
    0.4567 and the default speed [-2], the component is the double nearest to
    [-108.66], a finite number whose value is [k/100] for no integer [k] (a
    double with a fraction is a multiple of 1/100 only when the fraction is
    a multiple of 1/4).  With the option, at the speed [1e308] and the
    percentage 0, the component is [Infinity], which is no integer. *)
Lemma updatePosition_not_exact_hundredth :
  (let r := IEEE.updatePosition false (IEEE.decimal 4567 10000)
                                (IEEE.decimal 4567 10000) (IEEE.of_Z (-2)) in
   fst r = IEEE.decimal (-10866) 100
   /\ IEEE.is_finite (fst r) = true
   /\ forall k : Z, ~ IEEE.to_Q (fst r) == inject_Z k * (1 # 100))
  /\ (let r := IEEE.updatePosition true (IEEE.of_Z 0) (IEEE.of_Z 0)
                                   (IEEE.of_Z (10 ^ 308)) in
      fst r = S754_infinity false /\ IEEE.is_finite (fst r) = false).
Proof.
  split.
  - intros r. split; [vm_compute; reflexivity |].
    assert (F : IEEE.is_finite (fst r) = true) by (vm_compute; reflexivity).
    split; [exact F |]. intros k E.
    assert (M : IEEE.is_multiple_of_hundredth (fst r) = true)
      by (apply is_multiple_of_hundredth_spec; [exact F | exists k; exact E]).
    vm_compute in M. discriminate.
  - vm_compute. split; reflexivity.
Qed.


(** [updatePosition] depends on its arguments up to equality of numbers. *)
Lemma updatePosition_compat (this : Instance) (pX pX' pY pY' s : Q) :
  pX == pX' -> pY == pY' ->
  updatePosition this pX pY s = updatePosition this pX' pY' s.
Proof.
  intros EX EY. unfold updatePosition. cbn zeta. cbn [x y].
  destruct (Options.round (options this)).
  - f_equal; apply Math_round_compat; [rewrite EX | rewrite EY]; reflexivity.
  - f_equal; f_equal; apply Math_round_compat; [rewrite EX | rewrite EY]; reflexivity.
Qed.

(** ** Snapshot capture and rendering *)

Lemma createBlock_set_blocks (this : Instance) (bs : list Block.t) (w : World)
      (el : NodeId) :
  createBlock (set_blocks this bs) w el = createBlock this w el.
Proof. reflexivity. Qed.

Lemma cacheBlocks_fold (w : World) (els : list NodeId) :
  forall this,
    fold_left (fun t el => set_blocks t (blocks t ++ [createBlock t w el])) els this
    = set_blocks this (blocks this ++ map (createBlock this w) els).
Proof.
  induction els as [| e els IH]; intros this; cbn [fold_left map].
  - rewrite app_nil_r. destruct this; reflexivity.
  - rewrite IH. cbn [blocks set_blocks]. rewrite <- app_assoc. reflexivity.
Qed.

(** [cacheBlocks] pushes one block per tracked element, in order. *)
Lemma cacheBlocks_blocks (this : Instance) (w : World) :
  cacheBlocks this w
  = set_blocks this (blocks this ++ map (createBlock this w) (DOM_elements this)).
Proof. exact (cacheBlocks_fold w (DOM_elements this) this). Qed.

Lemma animate_loop_other (els : list NodeId) :
  forall bs this w e,
    ~ In e els ->
    style (snd (animate_loop this w els bs)) e = style w e.
Proof.
  induction els as [| a els IH]; intros bs this w e Hn; cbn [animate_loop].
  - reflexivity.
  - destruct bs as [| b bs]; [reflexivity |].
    rewrite IH by (intros H; apply Hn; right; exact H).
    cbn. destruct (Nat.eqb_spec e a) as [-> | _]; [| reflexivity].
    exfalso. apply Hn. left. reflexivity.
Qed.

(** After the loop of [animate], a tracked element carries the translation
    computed from its own block. *)
Lemma animate_loop_writes (els : list NodeId) :
  forall bs this w e b,
    NoDup els ->
    In (e, b) (combine els bs) ->
    transformProp (style (snd (animate_loop this w els bs)) e)
    = Some (translate this b).
Proof.
  induction els as [| a els IH]; intros bs this w e b Hd Hin.
  - destruct Hin.
  - destruct bs as [| b0 bs]; [destruct Hin |].
    inversion Hd as [| ? ? Hna Hd']; subst.
    cbn [animate_loop]. destruct Hin as [E | Hin].
    + inversion E; subst. rewrite animate_loop_other by exact Hna.
      cbn. rewrite Nat.eqb_refl. reflexivity.
    + rewrite (IH bs _ _ e b Hd' Hin). reflexivity.
Qed.

(** One block, captured in the default mode and rendered with the scroll
    offsets its capture used: [animate] evaluates the expressions that
    [createBlock] evaluated, on equal numbers.  Over the rationals the
    percentages are the seed percentages, the positions are the bases and
    the differences are zero. *)
Lemma default_block_at_capture_offset (this : Instance) (w : World) (el : NodeId) :
  Options.center (options this) = false ->
  data_rellax_percentage (element w el) = None ->
  x (pos this) == posX this w el ->
  y (pos this) == posY this w el ->
  let b := createBlock this w el in
  (x (percentages this b) == percentageX this w el
   /\ y (percentages this b) == percentageY this w el)
  /\ (x (positions this b) = Block.baseX b
      /\ y (positions this b) = Block.baseY b)
  /\ (tx (translate this b) == 0 /\ ty (translate this b) == 0).
Proof.
  intros Hc Hp HX HY b.
  assert (EX : x (percentages this b) == percentageX this w el).
  { unfold percentages, percentageX, attr_percentage. rewrite Hc, Hp.
    cbn [x y]. subst b. cbn [createBlock Block.left Block.width].
    rewrite HX. reflexivity. }
  assert (EY : y (percentages this b) == percentageY this w el).
  { unfold percentages, percentageY, attr_percentage. rewrite Hc, Hp.
    cbn [x y]. subst b. cbn [createBlock Block.top Block.height].
    rewrite HY. reflexivity. }
  assert (EP : positions this b = bases this w el).
  { unfold positions, bases. apply updatePosition_compat; assumption. }
  split; [split; assumption |].
  split; [split; rewrite EP; reflexivity |].
  unfold translate. rewrite EP. subst b. cbn [createBlock Block.baseX Block.baseY tx ty].
  split.
  - destruct (Options.horizontal (options this)); [ring | reflexivity].
  - destruct (Options.vertical (options this)); [ring | reflexivity].
Qed.

(** In the default mode the scroll offsets that capture uses are zero,
    wherever the page is scrolled to. *)
Lemma default_capture_offset (this : Instance) (w : World) (el : NodeId) :
  Options.center (options this) = false ->
  data_rellax_percentage (element w el) = None ->
  posX this w el = 0 /\ posY this w el = 0.
Proof.
  intros Hc Hp. unfold posX, posY, anchored, attr_percentage. rewrite Hc, Hp.
  split.
  - destruct (Options.horizontal (options this)); reflexivity.
  - destruct (Options.vertical (options this)); reflexivity.
Qed.

(** What [animate] writes on an element after [cacheBlocks]: the translation
    computed from the block captured for this very element. *)
Lemma animate_cached_block (this : Instance) (w w' : World) (el : NodeId) :
  NoDup (DOM_elements this) ->
  In el (DOM_elements this) ->
  let this1 := cacheBlocks (set_blocks this []) w in
  In (createBlock this w el) (blocks this1)
  /\ transformProp (style (snd (animate this1 w')) el)
     = Some (translate this (createBlock this w el)).
Proof.
  intros Hd Hin this1.
  assert (E1 : this1
               = set_blocks this (map (createBlock this w) (DOM_elements this))).
  { unfold this1. rewrite cacheBlocks_blocks. reflexivity. }
  clearbody this1. subst this1.
  split; [apply in_map; exact Hin |].
  unfold animate. cbn [DOM_elements blocks set_blocks].
  match goal with
  | |- context [animate_loop ?t ?v ?l ?k] =>
      pose proof (animate_loop_writes l k t v el (createBlock this w el) Hd) as W;
      destruct (animate_loop t v l k) as [t1 w1]
  end.
  cbn [snd] in *. change (style (callback w1)) with (style w1).
  rewrite W; [reflexivity |].
  clear - Hin. induction (DOM_elements this) as [| a l IH]; [destruct Hin |].
  cbn [map combine]. destruct Hin as [-> | Hin]; [left; reflexivity | right; auto].
Qed.




(** ** The [center] option *)

(** C7, as amended.  With [center] set, the percentages that seed the base
    offsets at capture are 1/2 on both axes, whatever percentage the element
    declares, and the bases are [updatePosition] at 1/2; the percentages of
    every later frame are still the ratios computed by [animate] from the
    stored scroll offsets. *)
Theorem center_pins_seed_percentage (this : Instance) (w : World) (el : NodeId) :
  Options.center (options this) = true ->
  (percentageX this w el = 1 # 2 /\ percentageY this w el = 1 # 2)
  /\ (Block.baseX (createBlock this w el)
      = x (updatePosition this (1 # 2) (1 # 2) (speed this w el))
      /\ Block.baseY (createBlock this w el)
         = y (updatePosition this (1 # 2) (1 # 2) (speed this w el)))
  /\ forall b,
      x (percentages this b)
      = (x (pos this) - Block.left b + x (screen this)) / (Block.width b + x (screen this))
      /\ y (percentages this b)
         = (y (pos this) - Block.top b + y (screen this)) / (Block.height b + y (screen this)).
Proof.
  intros Hc.
  assert (EX : percentageX this w el = 1 # 2) by (unfold percentageX; rewrite Hc; reflexivity).
  assert (EY : percentageY this w el = 1 # 2) by (unfold percentageY; rewrite Hc; reflexivity).
  split; [split; assumption |]. split.
  - cbn [createBlock Block.baseX Block.baseY]. unfold bases. rewrite EX, EY.
    split; reflexivity.
  - intros b. split; reflexivity.
Qed.

Lemma center_pins_seed_percentage_witness :
  let this := fst (Page.built (Rellax TUndefined (Some Page.centered) Page.world)) in
  percentageX this Page.world 1%nat = 1 # 2 /\ percentageY this Page.world 1%nat = 1 # 2.
Proof.
  intros this.
  exact (proj1 (center_pins_seed_percentage this Page.world 1%nat eq_refl)).
Defined.

(** C7, as stated, fails: on the sample page built with [{ center: true }],
    the percentage [animate] uses for the first element is 3/7, not 1/2. *)
Lemma center_percentage_not_pinned_in_animate :
  let this := fst (Page.built (Rellax TUndefined (Some Page.centered) Page.world)) in
  Options.center (options this) = true
  /\ exists b, nth_error (blocks this) 0 = Some b
               /\ y (percentages this b) == 3 # 7
               /\ ~ y (percentages this b) == 1 # 2.
Proof.
  intros this. split; [reflexivity |].
  eexists. split; [vm_compute; reflexivity |].
  split; [vm_compute; reflexivity | vm_compute; discriminate].
Qed.

(** ** The update loop *)

(** Whatever it returns, [setPosition] changes the instance in one place: the
    stored vertical offset becomes the current offset of the container. *)
Lemma setPosition_instance (this : Instance) (w : World) :
  snd (setPosition this w)
  = set_pos this
      (mkPoint (x (pos this))
               (match DOM_wrapper this with
                | Some wr => scrollTop (element w wr)
                | None => JS.or (docEl_scrollTop w) (pageYOffset w)
                end)).
Proof.
  unfold setPosition. cbv zeta.
  destruct (JS.neq _ _ && _); [reflexivity |].
  destruct (JS.neq _ _ && _); reflexivity.
Qed.

(** C2, as amended.  A call of [update] on a paused instance does not render:
    no element style changes, the callback is not called, the listeners stay,
    and of the instance only the stored vertical scroll offset changes, which
    [setPosition] overwrites with the current offset of the container; the
    call hands one more bound [update] to the frame clock. *)
Theorem paused_update (this : Instance) (w : World) :
  pause this = true ->
  fst (update this w)
  = set_pos this
      (mkPoint (x (pos this))
               (match DOM_wrapper this with
                | Some wr => scrollTop (element w wr)
                | None => JS.or (docEl_scrollTop w) (pageYOffset w)
                end))
  /\ style (snd (update this w)) = style w
  /\ callback_calls (snd (update this w)) = callback_calls w
  /\ resize_listeners (snd (update this w)) = resize_listeners w
  /\ frames (snd (update this w)) = frames w ++ [next_fn w].
Proof.
  intros Hp. unfold update.
  pose proof (setPosition_instance this w) as E.
  destruct (setPosition this w) as [changed this1]. cbn [snd] in E. subst this1.
  cbn [pause set_pos]. rewrite Hp, andb_false_r.
  cbn [bind loop fst snd]. repeat split; reflexivity.
Qed.

Lemma paused_update_witness :
  let s := Page.built (Rellax TUndefined None Page.world) in
  let d := destroy (fst s) (snd s) in
  style (snd (update (fst d) (scroll_to (snd d) 0 100))) = style (scroll_to (snd d) 0 100).
Proof.
  intros s d.
  exact (proj1 (proj2 (paused_update (fst d) (scroll_to (snd d) 0 100) eq_refl))).
Defined.

(** C2, as stated, fails: after [destroy], with the page scrolled to 100, the
    next call of [update], which is the next callback the frame clock runs,
    moves the stored scroll offset from 0 to 100. *)
Lemma paused_update_mutates_pos :
  let s := Page.built (Rellax TUndefined None Page.world) in
  let d := destroy (fst s) (snd s) in
  let u := update (fst d) (scroll_to (snd d) 0 100) in
  pause (fst d) = true
  /\ y (pos (fst d)) == 0
  /\ y (pos (fst u)) == 100
  /\ fst u <> fst d
  /\ fst (frame (fst d) (scroll_to (snd d) 0 100)) <> fst d.
Proof.
  intros s d u. split; [reflexivity |].
  split; [vm_compute; reflexivity |].
  split; [vm_compute; reflexivity |].
  split; intros E; apply (f_equal (fun t => Qnum (y (pos t)))) in E;
    vm_compute in E; discriminate.
Qed.

(** [setPosition] reads no horizontal offset: scrolling the document sideways
    changes neither its result nor the instance it leaves. *)
Lemma setPosition_ignores_horizontal (this : Instance) (w : World) (sx sx' sy : Q) :
  setPosition this (scroll_to w sx sy) = setPosition this (scroll_to w sx' sy).
Proof. reflexivity. Qed.

(** The stored horizontal offset is never written. *)
Lemma setPosition_keeps_x (this : Instance) (w : World) :
  x (pos (snd (setPosition this w))) = x (pos this).
Proof. rewrite setPosition_instance. reflexivity. Qed.

(** The vertical axis is the sibling that works: with vertical tracking on, a
    container offset different from the stored one is reported. *)
Lemma setPosition_detects_vertical (this : Instance) (w : World) :
  Options.vertical (options this) = true ->
  ~ y (pos this) == y (pos (snd (setPosition this w))) ->
  fst (setPosition this w) = true.
Proof.
  intros Hv Hne. rewrite setPosition_instance in Hne. cbn [pos set_pos y] in Hne.
  unfold setPosition. cbv zeta. cbn [pos set_pos options x y].
  rewrite Hv, andb_true_r. unfold JS.neq.
  destruct (Qeq_bool _ _) eqn:E; [| reflexivity].
  apply Qeq_bool_eq in E. contradiction.
Qed.

(** When [setPosition] answers [false], [update] renders nothing. *)
Lemma update_idle (this : Instance) (w : World) :
  fst (setPosition this w) = false ->
  style (snd (update this w)) = style w
  /\ callback_calls (snd (update this w)) = callback_calls w.
Proof.
  intros E. unfold update. destruct (setPosition this w) as [changed this1].
  cbn [fst] in E. subst changed. split; reflexivity.
Qed.

(** C3 at its failing input: the sample page built with
    [{ horizontal: true }] and then scrolled sideways to 100.  [setPosition]
    answers [false], the stored horizontal offset stays 0, and [update]
    neither touches a style nor calls the callback. *)
Theorem horizontal_scroll_not_detected :
  let s := Page.built (Rellax TUndefined (Some Page.sideways) Page.world) in
  let w := scroll_to (snd s) 100 0 in
  Options.horizontal (options (fst s)) = true
  /\ pageXOffset w == 100
  /\ x (pos (fst s)) == 0
  /\ fst (setPosition (fst s) w) = false
  /\ x (pos (fst (update (fst s) w))) == 0
  /\ (forall n, style (snd (update (fst s) w)) n = style w n)
  /\ callback_calls (snd (update (fst s) w)) = callback_calls w.
Proof.
  intros s w.
  split; [reflexivity |]. split; [reflexivity |]. split; [reflexivity |].
  split; [vm_compute; reflexivity |]. split; [vm_compute; reflexivity |].
  destruct (update_idle (fst s) w) as [A B]; [vm_compute; reflexivity |].
  split; [intros n; rewrite A; reflexivity | exact B].
Qed.

(** ** Teardown *)

(** [destroy] passes [removeEventListener] a function object made on the
    spot; no listener registered earlier is that object, so the table of
    listeners is left as it was. *)
Lemma destroy_keeps_listeners (this : Instance) (w : World) :
  (forall f, In f (resize_listeners w) -> (f < next_fn w)%nat) ->
  resize_listeners (snd (destroy this w)) = resize_listeners w.
Proof.
  intros Hfresh. unfold destroy, bind, removeEventListener.
  cbn [snd resize_listeners with_listeners with_next_fn next_fn].
  assert (R : forall n els bs,
             resize_listeners (restore_styles n els bs) = resize_listeners n
             /\ next_fn (restore_styles n els bs) = next_fn n).
  { intros n els. revert n. induction els as [| e els IH]; intros n bs.
    - split; reflexivity.
    - destruct bs as [| b bs]; [split; reflexivity |].
      cbn [restore_styles]. destruct (IH (assign_cssText n e (Block.style b)) bs) as [A B].
      rewrite A, B. split; reflexivity. }
  destruct (R w (DOM_elements this) (blocks this)) as [RL RN]. rewrite RL, RN.
  apply forallb_filter_id. apply forallb_forall. intros f Hf.
  apply Hfresh in Hf. destruct (Nat.eqb_spec f (next_fn w)); [lia | reflexivity].
Qed.

(** C4 at its failing input: construct on the sample page, then [destroy].
    The listener the constructor registered is still in the table, and the
    next resize of the window runs [init] again, which renders the elements
    of the destroyed instance anew. *)
Theorem destroy_leaves_resize_listener :
  let s := Page.built (Rellax TUndefined None Page.world) in
  let d := destroy (fst s) (snd s) in
  let r := resize (fst d) (snd d) in
  resize_listeners (snd s) = [1%nat]
  /\ resize_listeners (snd d) = [1%nat]
  /\ pause (fst d) = true
  /\ transformProp (style (snd d) 0%nat) = None
  /\ transformProp (style (snd r) 0%nat) <> None
  /\ callback_calls (snd r) = S (callback_calls (snd d)).
Proof.
  intros s d r.
  split; [vm_compute; reflexivity |]. split; [vm_compute; reflexivity |].
  split; [reflexivity |]. split; [vm_compute; reflexivity |].
  split; [vm_compute; discriminate | vm_compute; reflexivity].
Qed.

(** ** Construction *)

Lemma animate_loop_settings (els : list NodeId) :
  forall bs this w,
    settings (fst (animate_loop this w els bs)) = settings this
    /\ pause (fst (animate_loop this w els bs)) = pause this
    /\ blocks (fst (animate_loop this w els bs)) = blocks this.
Proof.
  induction els as [| e els IH]; intros bs this w; cbn [animate_loop].
  - repeat split; reflexivity.
  - destruct bs as [| b bs]; [repeat split; reflexivity |].
    destruct (IH bs (set_state_position this (Some (positions this b)))
                 (assign_transform w e (translate this b))) as [A [B C]].
    rewrite A, B, C. repeat split; reflexivity.
Qed.

Lemma animate_settings (this : Instance) (w : World) :
  settings (fst (animate this w)) = settings this
  /\ pause (fst (animate this w)) = pause this
  /\ blocks (fst (animate this w)) = blocks this.
Proof.
  unfold animate.
  pose proof (animate_loop_settings (DOM_elements this) (blocks this) this w) as H.
  destruct (animate_loop this w (DOM_elements this) (blocks this)). exact H.
Qed.

Lemma update_settings (this : Instance) (w : World) :
  settings (fst (update this w)) = settings this
  /\ pause (fst (update this w)) = pause this
  /\ blocks (fst (update this w)) = blocks this.
Proof.
  unfold update. pose proof (setPosition_instance this w) as E.
  destruct (setPosition this w) as [changed this1]. cbn [snd] in E. subst this1.
  destruct (changed && _).
  - match goal with
    | |- context [animate ?t ?v] =>
        pose proof (animate_settings t v) as H; destruct (animate t v)
    end.
    exact H.
  - repeat split; reflexivity.
Qed.

(** [init] rebuilds the blocks, one per tracked element and in their order,
    and keeps the elements, the container, the options and the pause flag. *)
Lemma init_settings (this : Instance) (w : World) :
  settings (fst (init this w)) = settings this
  /\ pause (fst (init this w)) = pause this
  /\ List.length (blocks (fst (init this w))) = List.length (DOM_elements this).
Proof.
  unfold init. cbv zeta.
  match goal with
  | |- context [animate ?t ?v] =>
      pose proof (animate_settings t v) as [A [B C]]; destruct (animate t v) as [t6 w2]
  end.
  cbn [fst] in A, B, C.
  destruct (update_settings t6 w2) as [A' [B' C']].
  rewrite A', B', C', A, B, C. rewrite !setPosition_instance, !cacheBlocks_blocks.
  cbn [settings DOM_elements DOM_wrapper options pause blocks set_blocks set_pos
       set_screen app].
  rewrite length_map. repeat split; reflexivity.
Qed.

Lemma start_instance (this : Instance) (w : World) :
  fst (start this w) = fst (init this w).
Proof. unfold start. destruct (init this w). reflexivity. Qed.

(** The constructor when the [wrapper] option is a non-empty string. *)
Lemma Rellax_string_wrapper (el : Target) (u : Options.user) (w : World)
      (c : N) (s : JS.str) :
  Options.u_wrapper u = Some (WString (c :: s)) ->
  Rellax el (Some u) w
  = let this := mkInstance None (resolve w (or_default el)) None (mkPoint 0 0)
                           (mkPoint 0 0) [] false
                           (Options.merge Options.default u) in
    if Nat.eqb (List.length (resolve w (or_default el))) 0
    then inl (Error "The elements you're trying to select don't exist.")
    else match self_options w with
         | None => inl TypeError
         | Some selector =>
             match querySelector w selector with
             | Some n => inr (start (set_DOM_wrapper this (Some n)) w)
             | None => inl (Error "The wrapper you're trying to use don't exist.")
             end
         end.
Proof.
  intros H. unfold Rellax. cbv zeta.
  replace (Options.wrapper (Options.merge Options.default u)) with (WString (c :: s))
    by (unfold Options.merge; cbn [Options.wrapper]; rewrite H; reflexivity).
  reflexivity.
Qed.

Lemma start_DOM_wrapper (this : Instance) (w : World) :
  DOM_wrapper (fst (start this w)) = DOM_wrapper this.
Proof.
  rewrite start_instance. destruct (init_settings this w) as [A _].
  apply (f_equal (fun p => snd (fst p))) in A. exact A.
Qed.

(** The wrapper is looked up under the global [self.options], never under the
    instance's own option: two string wrappers give the same outcome, as far
    as failing goes and as far as the container goes. *)
Lemma Rellax_wrapper_lookup (el : Target) (u1 u2 : Options.user) (w : World)
      (c1 c2 : N) (s1 s2 : JS.str) :
  Options.u_wrapper u1 = Some (WString (c1 :: s1)) ->
  Options.u_wrapper u2 = Some (WString (c2 :: s2)) ->
  match Rellax el (Some u1) w, Rellax el (Some u2) w with
  | inl e1, inl e2 => e1 = e2
  | inr r1, inr r2 => DOM_wrapper (fst r1) = DOM_wrapper (fst r2)
  | _, _ => False
  end.
Proof.
  intros H1 H2.
  rewrite (Rellax_string_wrapper el u1 w c1 s1 H1),
          (Rellax_string_wrapper el u2 w c2 s2 H2).
  cbv zeta.
  destruct (Nat.eqb (List.length (resolve w (or_default el))) 0); [reflexivity |].
  destruct (self_options w) as [sel |]; [| reflexivity].
  destruct (querySelector w sel) as [n |]; [| reflexivity].
  rewrite !start_DOM_wrapper. reflexivity.
Qed.

(** A wrapper passed as a node passes the test of the constructor but is
    never stored: the instance has no container, and the offsets are read
    from the document. *)
Lemma node_wrapper_not_stored (el : Target) (u : Options.user) (w w' : World)
      (n : NodeId) (this : Instance) :
  Options.u_wrapper u = Some (WNode n) ->
  Rellax el (Some u) w = inr (this, w') ->
  DOM_wrapper this = None.
Proof.
  intros Hu HR. unfold Rellax in HR. cbv zeta in HR.
  replace (Options.wrapper (Options.merge Options.default u)) with (WNode n) in HR
    by (unfold Options.merge; cbn [Options.wrapper]; rewrite Hu; reflexivity).
  destruct (Nat.eqb _ 0); [discriminate |].
  injection HR as HR. apply (f_equal fst) in HR. cbn [fst] in HR.
  rewrite <- HR. apply start_DOM_wrapper.
Qed.

(** C5 at its failing inputs: the sample page, constructed with
    [{ wrapper: '#missing' }], a selector that matches nothing.  Without a
    global [options] the constructor dies of a [TypeError], not of the wrapper
    error; with a global [options] whose wrapper is ['#main'] it succeeds and
    takes [#main] as the container. *)
Theorem wrapper_lookup_uses_global_options :
  let u := Some (Page.with_wrapper "#missing") in
  querySelector Page.world (JS.lit "#missing") = None
  /\ Rellax TUndefined u Page.world = inl TypeError
  /\ Rellax TUndefined u Page.world
     <> inl (Error "The wrapper you're trying to use don't exist.")
  /\ exists this w',
      Rellax TUndefined u (declare_global_options Page.world (JS.lit "#main"))
      = inr (this, w')
      /\ DOM_wrapper this = Some 2%nat.
Proof.
  intros u. split; [reflexivity |]. split; [reflexivity |].
  split; [vm_compute; discriminate |].
  destruct (Rellax TUndefined u (declare_global_options Page.world (JS.lit "#main")))
    as [e | [this w']] eqn:E.
  - vm_compute in E. discriminate.
  - exists this, w'. split; [reflexivity |].
    apply (f_equal (fun r => DOM_wrapper (fst (Page.built r)))) in E.
    cbn [Page.built fst] in E. rewrite <- E. vm_compute. reflexivity.
Qed.

(** The lookup goes right only by coincidence: when the global [options]
    names the same unresolvable selector, the wrapper error is raised. *)
Lemma wrapper_error_through_global_options :
  Rellax TUndefined (Some (Page.with_wrapper "#missing"))
         (declare_global_options Page.world (JS.lit "#missing"))
  = inl (Error "The wrapper you're trying to use don't exist.").
Proof. reflexivity. Qed.

(** C10.  A falsy target ([undefined], [null], the empty string) is replaced
    by the selector ['.rellax'] before the elements are resolved: whatever the
    options, the constructor raises the error of the missing elements exactly
    when nothing matches ['.rellax'], and called without options it succeeds
    exactly when something matches. *)
Theorem default_target (el : Target) (w : World) :
  falsy el = true ->
  or_default el = TString (JS.lit ".rellax")
  /\ (forall u, Rellax el u w
                = inl (Error "The elements you're trying to select don't exist.")
                <-> querySelectorAll w (JS.lit ".rellax") = [])
  /\ ((exists r, Rellax el None w = inr r)
      <-> querySelectorAll w (JS.lit ".rellax") <> []).
Proof.
  intros Hf.
  assert (E : or_default el = TString (JS.lit ".rellax"))
    by (unfold or_default; rewrite Hf; reflexivity).
  split; [exact E |]. split.
  - intros u. unfold Rellax. cbv zeta. rewrite E. cbn [resolve].
    destruct (querySelectorAll w (JS.lit ".rellax")) as [| n l].
    + split; reflexivity.
    + cbn [List.length Nat.eqb]. split; [| discriminate].
      destruct (Options.wrapper _) as [| m | [| c s]]; try discriminate.
      destruct (self_options w) as [sel |]; [| discriminate].
      destruct (querySelector w sel); discriminate.
  - unfold Rellax. cbv zeta. rewrite E. cbn [resolve Options.wrapper Options.default].
    destruct (querySelectorAll w (JS.lit ".rellax")) as [| n l].
    + split; [intros [r H]; discriminate | intros H; contradiction].
    + cbn [List.length Nat.eqb]. split; [discriminate | intros _; eexists; reflexivity].
Qed.

Lemma default_target_witness :
  or_default TNull = TString (JS.lit ".rellax")
  /\ exists r, Rellax TNull None Page.world = inr r.
Proof.
  destruct (default_target TNull Page.world eq_refl) as [A [_ [_ B]]].
  split; [exact A |]. apply B. vm_compute. discriminate.
Defined.

(** ** The inline transform *)

Lemma isPrefix_app (p s : JS.str) : JS.isPrefix p (p ++ s) = true.
Proof.
  induction p as [| a p IH]; [reflexivity |].
  cbn [JS.isPrefix app]. rewrite N.eqb_refl, IH. reflexivity.
Qed.

Lemma isPrefix_split (p : JS.str) :
  forall s, JS.isPrefix p s = true -> s = p ++ skipn (List.length p) s.
Proof.
  induction p as [| a p IH]; intros s H; [reflexivity |].
  destruct s as [| b s]; [discriminate |].
  cbn [JS.isPrefix] in H. apply andb_true_iff in H. destruct H as [E H].
  apply N.eqb_eq in E. subst b. cbn [List.length skipn app]. f_equal. apply IH, H.
Qed.

(** A successful [indexOf] is the position of an occurrence. *)
Lemma indexOf_from_found (p : JS.str) :
  forall s i,
    JS.indexOf_from p s i <> (-1)%Z ->
    exists pre rest,
      s = pre ++ p ++ rest
      /\ JS.indexOf_from p s i = (i + Z.of_nat (List.length pre))%Z.
Proof.
  induction s as [| a s IH]; intros i H.
  - cbn [JS.indexOf_from] in *. destruct (JS.isPrefix p []) eqn:E; [| contradiction].
    exists [], (skipn (List.length p) []). split.
    + apply (isPrefix_split p [] E).
    + cbn [List.length Z.of_nat]. lia.
  - cbn [JS.indexOf_from] in *. destruct (JS.isPrefix p (a :: s)) eqn:E.
    + exists [], (skipn (List.length p) (a :: s)). split.
      * apply (isPrefix_split p (a :: s) E).
      * cbn [List.length Z.of_nat]. lia.
    + destruct (IH (i + 1)%Z H) as [pre [rest [Hs Hk]]].
      exists (a :: pre), rest. split.
      * rewrite Hs. reflexivity.
      * rewrite Hk. cbn [List.length]. lia.
Qed.

(** A string in which [p] occurs has an index for it. *)
Lemma indexOf_from_occurs (p : JS.str) (rest : JS.str) :
  forall pre i,
    (i <= JS.indexOf_from p (pre ++ p ++ rest) i <= i + Z.of_nat (List.length pre))%Z.
Proof.
  induction pre as [| a pre IH]; intros i.
  - cbn [app]. destruct (p ++ rest) eqn:E; cbn [JS.indexOf_from];
      rewrite <- E, isPrefix_app; cbn [List.length Z.of_nat]; lia.
  - cbn [app JS.indexOf_from].
    destruct (JS.isPrefix p (a :: pre ++ p ++ rest)).
    + cbn [List.length]. lia.
    + specialize (IH (i + 1)%Z). cbn [List.length]. lia.
Qed.

(** [indexOf(';')] in terms of the text before the first semicolon. *)
Lemma indexOf_semicolon :
  forall s i,
    JS.indexOf_from [59%N] s i
    = if Nat.eqb (List.length (upto_semicolon s)) (List.length s)
      then (-1)%Z
      else (i + Z.of_nat (List.length (upto_semicolon s)))%Z.
Proof.
  induction s as [| c s IH]; intros i; [reflexivity |].
  cbn [JS.indexOf_from JS.isPrefix upto_semicolon].
  rewrite N.eqb_sym. destruct (c =? 59)%N.
  - cbn [andb List.length Nat.eqb Z.of_nat]. lia.
  - cbn [andb List.length Nat.eqb]. rewrite IH.
    destruct (Nat.eqb _ _); [reflexivity | lia].
Qed.

Lemma upto_semicolon_split :
  forall s,
    (upto_semicolon s = s /\ ~ In 59%N s)
    \/ (exists tail, s = upto_semicolon s ++ 59%N :: tail).
Proof.
  induction s as [| c s IH].
  - left. split; [reflexivity | intros []].
  - cbn [upto_semicolon]. destruct (N.eqb_spec c 59) as [-> | Hc].
    + right. exists s. reflexivity.
    + destruct IH as [[E Hn] | [tail E]].
      * left. split; [rewrite E; reflexivity |].
        intros [H | H]; [apply Hc; exact H | apply Hn; exact H].
      * right. exists tail. cbn [app]. rewrite <- E. reflexivity.
Qed.

Lemma upto_semicolon_clean (s : JS.str) : ~ In 59%N (upto_semicolon s).
Proof.
  induction s as [| c s IH]; [intros [] |].
  cbn [upto_semicolon]. destruct (N.eqb_spec c 59) as [-> | Hc]; [intros [] |].
  intros [H | H]; [apply Hc; exact H | apply IH; exact H].
Qed.

Lemma upto_semicolon_whole (s : JS.str) :
  List.length (upto_semicolon s) = List.length s -> upto_semicolon s = s.
Proof.
  intros H. destruct (upto_semicolon_split s) as [[E _] | [tail E]]; [exact E |].
  apply (f_equal (@List.length N)) in E. rewrite length_app in E.
  cbn [List.length] in E. lia.
Qed.

(** [slice] with indices that are not negative is [skipn] after [firstn]. *)
Lemma firstn_skipn_min {A} :
  forall (s : list A) n m,
    firstn (Nat.min m (List.length s) - Nat.min n (List.length s))
           (skipn (Nat.min n (List.length s)) s)
    = skipn n (firstn m s).
Proof.
  induction s as [| c s IH]; intros n m.
  - cbn [List.length]. rewrite !Nat.min_0_r. cbn [skipn Nat.sub firstn].
    rewrite firstn_nil, skipn_nil. reflexivity.
  - destruct n as [| n], m as [| m]; cbn [List.length Nat.min Nat.sub skipn firstn].
    + reflexivity.
    + f_equal. specialize (IH 0%nat m). cbn [Nat.min skipn] in IH.
      rewrite Nat.sub_0_r in IH. exact IH.
    + reflexivity.
    + apply IH.
Qed.

Lemma slice_between (s : JS.str) (a b : Z) :
  (0 <= a)%Z -> (0 <= b)%Z ->
  JS.slice s a (Some b) = skipn (Z.to_nat a) (firstn (Z.to_nat b) s).
Proof.
  intros Ha Hb. unfold JS.slice, JS.clamp.
  destruct (Z.ltb_spec a 0); [lia |]. destruct (Z.ltb_spec b 0); [lia |].
  rewrite <- firstn_skipn_min. f_equal; [| f_equal]; lia.
Qed.

Lemma slice_from (s : JS.str) (a : Z) :
  (0 <= a)%Z -> JS.slice s a None = skipn (Z.to_nat a) s.
Proof.
  intros Ha. unfold JS.slice, JS.clamp. destruct (Z.ltb_spec a 0); [lia |].
  transitivity (skipn (Z.to_nat a) (firstn (List.length s) s));
    [| rewrite firstn_all; reflexivity].
  rewrite <- firstn_skipn_min. f_equal; [| f_equal]; lia.
Qed.

(** [extractTransform] against the fragment of the specification, on every
    style text.  When ["transform"] occurs, the source keeps the text between
    its first occurrence and the next semicolon (or the end of the string)
    without its first two code units (the [": "] of a serialised declaration),
    removes all white space from it and puts one space in front. *)
Lemma extractTransform_fragment (style : JS.str) :
  extractTransform style
  = if (0 <=? JS.indexOf style (JS.lit "transform"))%Z
    then JS.lit " " ++ JS.removeWhiteSpace (skipn 2 (spec_transformFragment style))
    else [].
Proof.
  unfold extractTransform, spec_transformFragment.
  destruct (Z.leb_spec 0 (JS.indexOf style (JS.lit "transform"))) as [H0 | H0];
    [| reflexivity].
  cbv zeta. f_equal. f_equal.
  destruct (indexOf_from_found (JS.lit "transform") style 0) as [pre [rest [Hs Hk]]];
    [unfold JS.indexOf in H0; lia |].
  fold (JS.indexOf style (JS.lit "transform")) in Hk. rewrite Hk.
  rewrite slice_from by lia.
  replace (Z.to_nat (0 + Z.of_nat (List.length pre))) with (List.length pre) by lia.
  assert (Et : skipn (List.length pre) style = JS.lit "transform" ++ rest).
  { rewrite Hs, skipn_app, skipn_all, Nat.sub_diag. reflexivity. }
  assert (Er : skipn (List.length pre + 9) style = rest).
  { rewrite Nat.add_comm, <- skipn_skipn, Et. reflexivity. }
  rewrite Et, Er. unfold JS.indexOf. rewrite indexOf_semicolon.
  assert (Eu : upto_semicolon (JS.lit "transform" ++ rest)
               = JS.lit "transform" ++ upto_semicolon rest) by reflexivity.
  rewrite Eu, !length_app.
  change (List.length (JS.lit "transform")) with 9%nat.
  destruct (Nat.eqb_spec (9 + List.length (upto_semicolon rest))
                         (9 + List.length rest)) as [El | Hl].
  - change (-1 =? -1)%Z with true. cbv iota.
    rewrite slice_from by lia. rewrite upto_semicolon_whole by lia. reflexivity.
  - destruct (Z.eqb_spec (0 + Z.of_nat (9 + List.length (upto_semicolon rest))) (-1));
      [lia |].
    rewrite slice_between by lia.
    replace (Z.to_nat (0 + Z.of_nat (9 + List.length (upto_semicolon rest))))
      with (9 + List.length (upto_semicolon rest))%nat by lia.
    destruct (upto_semicolon_split rest) as [[E _] | [tail E]];
      [rewrite E in Hl; contradiction |].
    rewrite E at 2.
    change (firstn (9 + ?n) (JS.lit "transform" ++ ?l))
      with (JS.lit "transform" ++ firstn n l).
    rewrite firstn_app, firstn_all, Nat.sub_diag. cbn [firstn]. rewrite app_nil_r.
    reflexivity.
Qed.

(** C8, as amended.  [extractTransform] is a total function of the style
    text.  When the text holds a transform declaration and ["transform"] does
    not occur in it before the property name of that declaration, the stored
    fragment is one space followed by the text between the ["transform: "] of
    the declaration and its terminating semicolon, with all white space
    removed; without a terminating semicolon that text extends to the end of
    the string. *)
Theorem extractTransform_spec (style pre after : JS.str) :
  transform_declaration style pre after ->
  (forall p r, style = p ++ JS.lit "transform" ++ r ->
               (List.length pre <= List.length p)%nat) ->
  extractTransform style
  = JS.lit " " ++ JS.removeWhiteSpace (upto_semicolon after)
  /\ ~ In 59%N (upto_semicolon after)
  /\ ((upto_semicolon after = after /\ ~ In 59%N after)
      \/ exists tail, after = upto_semicolon after ++ 59%N :: tail).
Proof.
  intros [Hs _] Hfirst.
  split; [| split; [apply upto_semicolon_clean | apply upto_semicolon_split]].
  assert (Hs' : style = pre ++ JS.lit "transform" ++ JS.lit ": " ++ after)
    by (rewrite Hs; reflexivity).
  pose proof (indexOf_from_occurs (JS.lit "transform") (JS.lit ": " ++ after) pre 0)
    as Hocc.
  rewrite <- Hs' in Hocc. fold (JS.indexOf style (JS.lit "transform")) in Hocc.
  destruct (indexOf_from_found (JS.lit "transform") style 0) as [pre0 [rest0 [Hs0 Hk]]];
    [unfold JS.indexOf in Hocc; lia |].
  fold (JS.indexOf style (JS.lit "transform")) in Hk.
  pose proof (Hfirst pre0 rest0 Hs0) as Hle.
  assert (Hi : JS.indexOf style (JS.lit "transform") = Z.of_nat (List.length pre))
    by lia.
  rewrite extractTransform_fragment. unfold spec_transformFragment. rewrite Hi.
  destruct (Z.leb_spec 0 (Z.of_nat (List.length pre))); [| lia].
  rewrite Nat2Z.id.
  replace (List.length pre + 9)%nat with (9 + List.length pre)%nat by lia.
  rewrite <- skipn_skipn. rewrite Hs' at 1.
  rewrite skipn_app, skipn_all, Nat.sub_diag. reflexivity.
Qed.

Lemma extractTransform_spec_witness :
  let style := JS.lit "color: red; transform: rotate(45deg) scale(2); top: 0px;" in
  extractTransform style = JS.lit " rotate(45deg)scale(2)".
Proof.
  intros style.
  refine (proj1 (extractTransform_spec style (JS.lit "color: red; ")
                   (JS.lit "rotate(45deg) scale(2); top: 0px;") _ _)).
  - split; [reflexivity |]. right.
    exists (JS.lit "color: red"), (JS.lit " "). split; reflexivity.
  - intros p r E.
    pose proof (indexOf_from_occurs (JS.lit "transform") r p 0) as H.
    rewrite <- E in H.
    assert (I : JS.indexOf_from (JS.lit "transform") style 0 = 12%Z)
      by (vm_compute; reflexivity).
    rewrite I in H. change (List.length (JS.lit "color: red; ")) with 12%nat. lia.
Defined.

(** C8, as stated, fails: for a declaration with two functions the text
    between the property name and the semicolon is
    [": translate(10px, 20px) rotate(5deg)"], with or without its [": "],
    and the stored fragment is [" translate(10px,20px)rotate(5deg)"]. *)
Lemma extractTransform_not_text_between :
  let style := JS.lit "transform: translate(10px, 20px) rotate(5deg);" in
  spec_transformFragment style = JS.lit ": translate(10px, 20px) rotate(5deg)"
  /\ extractTransform style = JS.lit " translate(10px,20px)rotate(5deg)"
  /\ extractTransform style <> spec_transformFragment style
  /\ extractTransform style <> skipn 2 (spec_transformFragment style).
Proof.
  intros style. split; [reflexivity |]. split; [reflexivity |].
  split; vm_compute; discriminate.
Qed.

(** What the amended statement leaves out.  The source looks for the text
    ["transform"], not for the property: when another property name ends in
    it and comes first, the fragment is cut from that declaration. *)
Example extractTransform_other_property :
  extractTransform (JS.lit "text-transform: uppercase; transform: rotate(1deg);")
  = JS.lit " uppercase".
Proof. reflexivity. Qed.

(** ** A whole initialisation *)

Lemma animate_loop_effect (els : list NodeId) :
  forall bs this w,
    (exists p, fst (animate_loop this w els bs) = set_state_position this p)
    /\ (exists st, snd (animate_loop this w els bs) = with_style w st).
Proof.
  induction els as [| e els IH]; intros bs this w; cbn [animate_loop].
  - split; [exists (state_position this); destruct this
           | exists (style w); destruct w]; reflexivity.
  - destruct bs as [| b bs].
    + split; [exists (state_position this); destruct this
             | exists (style w); destruct w]; reflexivity.
    + destruct (IH bs (set_state_position this (Some (positions this b)))
                   (assign_transform w e (translate this b))) as [[p Hp] [st Hst]].
      split; [exists p; rewrite Hp | exists st; rewrite Hst]; reflexivity.
Qed.

(** [animate] changes the recorded position of the instance, the styles and
    the count of callback calls, and nothing else. *)
Lemma animate_effect (this : Instance) (w : World) :
  (exists p, fst (animate this w) = set_state_position this p)
  /\ (exists st, snd (animate this w)
                 = with_callback_calls (with_style w st) (S (callback_calls w))).
Proof.
  unfold animate.
  destruct (animate_loop_effect (DOM_elements this) (blocks this) this w)
    as [[p Hp] [st Hst]].
  destruct (animate_loop this w (DOM_elements this) (blocks this)) as [t v].
  cbn [fst snd] in *. subst.
  split; [exists p | exists st]; reflexivity.
Qed.

Lemma restore_styles_effect (els : list NodeId) :
  forall bs w, exists st, restore_styles w els bs = with_style w st.
Proof.
  induction els as [| e els IH]; intros bs w; cbn [restore_styles].
  - exists (style w). destruct w. reflexivity.
  - destruct bs as [| b bs]; [exists (style w); destruct w; reflexivity |].
    destruct (IH bs (assign_cssText w e (Block.style b))) as [st Hst].
    exists st. rewrite Hst. reflexivity.
Qed.

(** The first render.  When [init] runs with the container at offset zero,
    every tracked element in the default mode, on a page where its size plus
    the size of the viewport is not zero, ends with a zero translation: it
    starts where the markup placed it. *)
Lemma init_renders_in_place (this : Instance) (w : World) (el : NodeId) :
  NoDup (DOM_elements this) ->
  In el (DOM_elements this) ->
  Options.center (options this) = false ->
  data_rellax_percentage (element w el) = None ->
  x (pos this) == 0 ->
  match DOM_wrapper this with
  | Some wr => scrollTop (element w wr)
  | None => JS.or (docEl_scrollTop w) (pageYOffset w)
  end == 0 ->
  ~ blockWidth w el + JS.or (innerWidth w) (docEl_clientWidth w) == 0 ->
  ~ blockHeight w el + JS.or (innerHeight w) (docEl_clientHeight w) == 0 ->
  exists t, transformProp (style (snd (init this w)) el) = Some t
            /\ tx t == 0 /\ ty t == 0.
Proof.
  intros Hd Hin Hc Hp HX HY _ _. unfold init. cbv zeta.
  destruct (restore_styles_effect (DOM_elements this) (blocks this) w) as [st1 E1].
  rewrite E1. rewrite !setPosition_instance.
  cbn [set_blocks set_screen set_pos pos screen DOM_wrapper DOM_elements blocks
       options state_position pause x y].
  match goal with
  | |- context [animate (cacheBlocks ?t ?v) ?v] => set (this4 := t); set (w1 := v)
  end.
  assert (Hp1 : data_rellax_percentage (element w1 el) = None) by exact Hp.
  destruct (default_capture_offset this4 w1 el Hc Hp1) as [ZX ZY].
  destruct (default_block_at_capture_offset this4 w1 el Hc Hp1) as [_ [_ Hz]].
  { rewrite ZX. exact HX. }
  { rewrite ZY. exact HY. }
  destruct (animate_cached_block this4 w1 w1 el Hd Hin) as [_ Ht].
  change (set_blocks this4 []) with this4 in Ht.
  exists (translate this4 (createBlock this4 w1 el)).
  split; [| exact Hz]. rewrite <- Ht.
  destruct (animate_effect (cacheBlocks this4 w1) w1) as [[p Ep] [st Est]].
  destruct (animate (cacheBlocks this4 w1) w1) as [this6 w2].
  cbn [fst snd] in *. subst this6 w2.
  match goal with
  | |- context [update ?a ?v] => destruct (update_idle a v) as [A _]
  end; [| rewrite A; reflexivity].
  unfold setPosition. cbv zeta. rewrite cacheBlocks_blocks.
  cbn [set_state_position set_blocks set_pos pos DOM_wrapper options this4 x y
       with_callback_calls with_style docEl_scrollTop pageYOffset element w1].
  unfold JS.neq. rewrite !Qeq_bool_refl. reflexivity.
Qed.

(** Capture on a page that is already scrolled.  The default mode still uses
    offset zero for the capture, while the first render uses the live offset:
    built on the sample page scrolled down by 100, the first element gets the
    translation 29 at once. *)
Example scrolled_capture_first_render :
  let w := scroll_to Page.world 0 100 in
  let s := Page.built (Rellax TUndefined None w) in
  posY (fst s) w 0%nat = 0
  /\ y (pos (fst s)) == 100
  /\ exists t, transformProp (style (snd s) 0%nat) = Some t /\ ty t == 29.
Proof.
  intros w s. split; [reflexivity |]. split; [vm_compute; reflexivity |].
  eexists. split; vm_compute; reflexivity.
Qed.

(** ** The frame clock and the listeners *)

Lemma frame_runs_update (this : Instance) (w : World) (f : FnId) (fs : list FnId) :
  frames w = f :: fs -> frame this w = update this (with_frames w fs).
Proof. intros E. unfold frame. rewrite E. reflexivity. Qed.

Lemma update_world (this : Instance) (w : World) :
  resize_listeners (snd (update this w)) = resize_listeners w
  /\ next_fn (snd (update this w)) = S (next_fn w).
Proof.
  unfold update. destruct (setPosition this w) as [changed this1].
  destruct (changed && _).
  - destruct (animate_effect this1 w) as [_ [st E]].
    destruct (animate this1 w) as [t v]. cbn [snd] in E. subst v.
    split; reflexivity.
  - split; reflexivity.
Qed.

Lemma init_world (this : Instance) (w : World) :
  resize_listeners (snd (init this w)) = resize_listeners w
  /\ next_fn (snd (init this w)) = S (next_fn w).
Proof.
  unfold init. cbv zeta.
  destruct (restore_styles_effect (DOM_elements this) (blocks this) w) as [st1 E1].
  rewrite E1.
  match goal with
  | |- context [animate ?t ?v] =>
      destruct (animate_effect t v) as [_ [st E]]; destruct (animate t v) as [t6 w2]
  end.
  cbn [snd] in E. subst w2.
  match goal with
  | |- context [update ?t ?v] => destruct (update_world t v) as [A B]
  end.
  rewrite A, B. split; reflexivity.
Qed.

(** Construction registers one new listener, and [destroy] of the instance
    it returns leaves every listener in place, that one included. *)
Lemma destroy_after_construction (el : Target) (u : option Options.user)
      (w w' : World) (this : Instance) :
  listeners_known w ->
  Rellax el u w = inr (this, w') ->
  resize_listeners w' = resize_listeners w ++ [S (next_fn w)]
  /\ resize_listeners (snd (destroy this w')) = resize_listeners w'.
Proof.
  intros Hk HR.
  assert (S1 : forall t, resize_listeners (snd (start t w))
                         = resize_listeners w ++ [S (next_fn w)]
                         /\ listeners_known (snd (start t w))).
  { intros t. unfold start. destruct (init_world t w) as [A B].
    destruct (init t w) as [t1 w1]. cbn [snd] in A, B.
    unfold bind, addEventListener.
    cbn [snd resize_listeners with_next_fn next_fn].
    rewrite A, B.
    assert (N : existsb (Nat.eqb (S (next_fn w))) (resize_listeners w) = false).
    { destruct (existsb _ _) eqn:X; [| reflexivity].
      apply existsb_exists in X. destruct X as [f [Hf Ef]].
      apply Nat.eqb_eq in Ef. apply Hk in Hf. lia. }
    rewrite N. cbn [resize_listeners with_listeners with_next_fn next_fn].
    split; [reflexivity |].
    intros f Hf. cbn [resize_listeners with_listeners with_next_fn next_fn] in *.
    apply in_app_or in Hf.
    destruct Hf as [Hf | [<- | []]]; [apply Hk in Hf |]; lia. }
  assert (S2 : exists t, w' = snd (start t w)).
  { unfold Rellax in HR. cbv zeta in HR.
    destruct (Nat.eqb _ 0); [discriminate |].
    destruct (Options.wrapper _) as [| m | [| c s]];
      try (eexists; inversion HR; rewrite H0; reflexivity).
    destruct (self_options w) as [sel |]; [| discriminate].
    destruct (querySelector w sel); [| discriminate].
    eexists; inversion HR; rewrite H0; reflexivity. }
  destruct S2 as [t ->]. destruct (S1 t) as [A K].
  split; [exact A | apply destroy_keeps_listeners; exact K].
Qed.

(** * Further properties of the source *)

(** ** [updatePosition] *)





(** ** [setPosition] and [update] *)

Lemma setPosition_result (this : Instance) (w : World) :
  fst (setPosition this w)
  = JS.neq (y (pos this)) (y (pos (snd (setPosition this w))))
    && Options.vertical (options this).
Proof.
  rewrite setPosition_instance. unfold setPosition. cbv zeta.
  cbn [pos set_pos options x y]. unfold JS.neq at 2.
  rewrite Qeq_bool_refl. cbn [negb andb].
  destruct (JS.neq _ _ && _); reflexivity.
Qed.

(** All that [update] changes: in the instance the stored vertical offset and
    the recorded position, in the browser the styles, the count of callback
    calls and the frame clock. *)
Lemma update_effect (this : Instance) (w : World) :
  exists p st c,
    fst (update this w) = set_state_position (snd (setPosition this w)) p
    /\ snd (update this w)
       = loop (with_next_fn (with_callback_calls (with_style w st) c)
                            (S (next_fn w)))
              (next_fn w).
Proof.
  unfold update. destruct (setPosition this w) as [changed this1]. cbn [snd].
  destruct (changed && _).
  - destruct (animate_effect this1 w) as [[p Ep] [st Est]].
    destruct (animate this1 w) as [t v]. cbn [fst snd] in *. subst.
    exists p, st, (S (callback_calls w)). split; reflexivity.
  - exists (state_position this1), (style w), (callback_calls w).
    split; [destruct this1 | destruct w]; reflexivity.
Qed.

(** X4.  [setPosition] reports a change exactly when vertical tracking is on
    and the vertical offset of the container differs from the stored one; the
    [horizontal] option has no part in the answer. *)
Theorem setPosition_reports (this : Instance) (w : World) :
  fst (setPosition this w) = true
  <-> Options.vertical (options this) = true
      /\ ~ y (pos this) == y (pos (snd (setPosition this w))).
Proof.
  rewrite setPosition_result, andb_true_iff. unfold JS.neq.
  rewrite negb_true_iff. split; intros [A B]; split; try assumption.
  - apply Qeq_bool_neq. exact A.
  - destruct (Qeq_bool _ _) eqn:E; [| reflexivity].
    apply Qeq_bool_eq in E. contradiction.
Qed.

(** X5.  Two calls of [update] with no scrolling in between: the second one
    renders nothing.  It changes no style, does not call the callback and
    leaves the stored offsets as the first call set them. *)
Theorem update_twice_idle (this : Instance) (w : World) :
  let r := update this w in
  style (snd (update (fst r) (snd r))) = style (snd r)
  /\ callback_calls (snd (update (fst r) (snd r))) = callback_calls (snd r)
  /\ pos (fst (update (fst r) (snd r))) = pos (fst r).
Proof.
  intros r. subst r.
  destruct (update_effect this w) as [p [st [c [E1 E2]]]].
  rewrite E1, E2. rewrite setPosition_instance.
  match goal with
  | |- context [update ?a ?v] =>
      set (a2 := a); set (v2 := v);
      assert (F : fst (setPosition a2 v2) = false)
  end.
  { rewrite setPosition_result, setPosition_instance. unfold JS.neq.
    rewrite Qeq_bool_refl. reflexivity. }
  destruct (update_idle a2 v2 F) as [A B]. split; [exact A |]. split; [exact B |].
  destruct (update_effect a2 v2) as [p' [st' [c' [E3 _]]]].
  rewrite E3, setPosition_instance. reflexivity.
Qed.


(** X7.  With vertical tracking off, [update] never renders, whatever the
    page is scrolled to and whether horizontal tracking is on or not. *)
Theorem update_without_vertical (this : Instance) (w : World) :
  Options.vertical (options this) = false ->
  style (snd (update this w)) = style w
  /\ callback_calls (snd (update this w)) = callback_calls w
  /\ state_position (fst (update this w)) = state_position this.
Proof.
  intros Hv.
  assert (F : fst (setPosition this w) = false)
    by (rewrite setPosition_result, Hv; apply andb_false_r).
  destruct (update_idle this w F) as [A B]. split; [exact A |]. split; [exact B |].
  unfold update. pose proof (setPosition_instance this w) as E.
  destruct (setPosition this w) as [changed this1]. cbn [fst snd] in *.
  subst. reflexivity.
Qed.

Lemma update_without_vertical_witness :
  let s := Page.built (Rellax TUndefined
                              (Some (Options.mkUser None None None None
                                                    (Some false) (Some true)))
                              Page.world) in
  let w := scroll_to (snd s) 300 400 in
  style (snd (update (fst s) w)) = style w
  /\ callback_calls (snd (update (fst s) w)) = callback_calls w
  /\ state_position (fst (update (fst s) w)) = state_position (fst s).
Proof.
  intros s w. apply update_without_vertical. reflexivity.
Defined.

(** X8.  No call of [update] changes the horizontal translation of a block:
    the X component written on any later frame is the one of the first
    render. *)
Theorem update_keeps_horizontal_translation (this : Instance) (w : World)
        (b : Block.t) :
  tx (translate (fst (update this w)) b) = tx (translate this b)
  /\ x (pos (fst (update this w))) = x (pos this).
Proof.
  destruct (update_effect this w) as [p [st [c [E _]]]].
  rewrite E, setPosition_instance. split; reflexivity.
Qed.

(** ** What is on the screen *)

(** Replacing the stored vertical offset by an equal number, or by any number
    when vertical tracking is off, does not change a translation. *)
Lemma translate_set_pos (this : Instance) (b : Block.t) (r : Q) :
  y (pos this) == r \/ Options.vertical (options this) = false ->
  translate (set_pos this (mkPoint (x (pos this)) r)) b = translate this b.
Proof.
  intros H. unfold translate. cbn [options set_pos].
  destruct (Options.vertical (options this)) eqn:Hv.
  - destruct H as [E | E]; [| discriminate].
    assert (P : positions (set_pos this (mkPoint (x (pos this)) r)) b
                = positions this b).
    { unfold positions.
      transitivity
        (updatePosition this
           (x (percentages (set_pos this (mkPoint (x (pos this)) r)) b))
           (y (percentages (set_pos this (mkPoint (x (pos this)) r)) b))
           (Block.speed b)); [reflexivity |].
      apply updatePosition_compat.
      - reflexivity.
      - unfold percentages. cbn [pos set_pos screen x y]. rewrite E. reflexivity. }
    rewrite P. reflexivity.
  - reflexivity.
Qed.

Lemma animate_rendered (this : Instance) (w : World) :
  NoDup (DOM_elements this) ->
  rendered (fst (animate this w)) (snd (animate this w)).
Proof.
  intros Hd e b Hin. unfold animate in *.
  pose proof (animate_loop_writes (DOM_elements this) (blocks this) this w) as W.
  destruct (animate_loop_effect (DOM_elements this) (blocks this) this w)
    as [[p Ep] _].
  destruct (animate_loop this w (DOM_elements this) (blocks this)) as [t v].
  cbn [fst snd] in *. subst t. cbn [DOM_elements blocks set_state_position] in Hin.
  change (style (callback v)) with (style v).
  rewrite (W e b Hd Hin). reflexivity.
Qed.

Lemma update_rendered (this : Instance) (w : World) :
  NoDup (DOM_elements this) ->
  pause this = false \/ fst (setPosition this w) = false ->
  rendered this w ->
  rendered (fst (update this w)) (snd (update this w)).
Proof.
  intros Hd Hc R. pose proof (setPosition_result this w) as SR.
  pose proof (setPosition_instance this w) as SI.
  unfold update. destruct (setPosition this w) as [changed this1].
  cbn [fst snd] in *.
  destruct (changed && negb (pause this1)) eqn:C.
  - pose proof (animate_rendered this1 w) as A.
    destruct (animate this1 w) as [t v]. cbn [fst snd] in *.
    intros e b Hin. apply A; [subst this1; exact Hd | exact Hin].
  - intros e b Hin. unfold bind, loop in *.
    cbn [fst snd style with_frames with_next_fn] in *.
    subst this1. cbn [DOM_elements blocks set_pos] in Hin.
    rewrite (R e b Hin). f_equal. symmetry. apply translate_set_pos.
    cbn [pause set_pos] in C.
    assert (F : changed = false).
    { destruct Hc as [Hp | Hf]; [| exact Hf].
      rewrite Hp in C. cbn [negb] in C. rewrite andb_true_r in C. exact C. }
    rewrite F in SR. symmetry in SR. apply andb_false_iff in SR.
    destruct SR as [N | V]; [left | right; exact V].
    unfold JS.neq in N. apply negb_false_iff, Qeq_bool_eq in N.
    cbn [pos set_pos y] in N. exact N.
Qed.

(** X9.  While the instance is not paused, [update] keeps the screen in step
    with the state: if every tracked element showed the translation of its
    block at the stored offset before the call, it does so after it. *)
Theorem update_keeps_rendered (this : Instance) (w : World) :
  NoDup (DOM_elements this) ->
  pause this = false ->
  rendered this w ->
  rendered (fst (update this w)) (snd (update this w)).
Proof.
  intros Hd Hp R. apply update_rendered; [exact Hd | left; exact Hp | exact R].
Qed.

Lemma update_keeps_rendered_witness :
  let s := Page.built (Rellax TUndefined None Page.world) in
  let w := scroll_to (snd s) 0 600 in
  rendered (fst (update (fst s) w)) (snd (update (fst s) w)).
Proof.
  intros s w. apply update_keeps_rendered.
  - vm_compute. repeat constructor; simpl; intuition discriminate.
  - reflexivity.
  - intros e b Hin. vm_compute in Hin.
    destruct Hin as [E | [E | []]]; injection E as <- <-; vm_compute; reflexivity.
Defined.

Lemma init_unfold (this : Instance) (w : World) :
  exists this4 w1 st,
    w1 = with_style w st
    /\ w1 = restore_styles w (DOM_elements this) (blocks this)
    /\ settings this4 = settings this
    /\ pause this4 = pause this
    /\ x (pos this4) = x (pos this)
    /\ blocks this4 = []
    /\ fst (setPosition this4 w1) = false
    /\ init this w
       = (let (this6, w2) := animate (cacheBlocks this4 w1) w1 in update this6 w2).
Proof.
  destruct (restore_styles_effect (DOM_elements this) (blocks this) w) as [st E].
  set (w1 := restore_styles w (DOM_elements this) (blocks this)) in *.
  set (this2 := set_screen (set_blocks this [])
                  (mkPoint (x (screen (set_blocks this [])))
                           (JS.or (innerHeight w1) (docEl_clientHeight w1)))).
  set (this3 := set_screen this2
                  (mkPoint (JS.or (innerWidth w1) (docEl_clientWidth w1))
                           (y (screen this2)))).
  exists (snd (setPosition this3 w1)), w1, st.
  split; [exact E |]. split; [reflexivity |].
  repeat (split; [rewrite setPosition_instance; reflexivity |]).
  split; [| reflexivity].
  rewrite setPosition_result, !setPosition_instance. unfold JS.neq.
  cbn [pos set_pos y DOM_wrapper].
  rewrite Qeq_bool_refl. reflexivity.
Qed.

Lemma setPosition_idle_again (this4 : Instance) (w1 : World) (bs : list Block.t)
      (p : option Point) (st : NodeId -> Style) (c : nat) :
  fst (setPosition this4 w1) = false ->
  fst (setPosition (set_state_position (set_blocks this4 bs) p)
                   (with_callback_calls (with_style w1 st) c)) = false.
Proof.
  intros H. rewrite setPosition_result, setPosition_instance in *. exact H.
Qed.

(** The two passes of [init]: the render on the fresh blocks, then an
    [update] that finds the offset unchanged. *)
Lemma init_passes (this : Instance) (w : World) :
  exists this4 w1 st this6 w2,
    w1 = with_style w st
    /\ settings this4 = settings this
    /\ pause this4 = pause this
    /\ animate (cacheBlocks this4 w1) w1 = (this6, w2)
    /\ blocks this6 = map (createBlock this4 w1) (DOM_elements this)
    /\ DOM_elements this6 = DOM_elements this
    /\ fst (setPosition this6 w2) = false
    /\ callback_calls w2 = S (callback_calls w)
    /\ frames w2 = frames w /\ next_fn w2 = next_fn w
    /\ init this w = update this6 w2.
Proof.
  destruct (init_unfold this w) as [this4 [w1 [st [E [_ [S4 [P4 [_ [B4 [F I]]]]]]]]]].
  destruct (animate_effect (cacheBlocks this4 w1) w1) as [[p Ep] [st2 Est]].
  destruct (animate (cacheBlocks this4 w1) w1) as [this6 w2] eqn:A.
  cbn [fst snd] in *.
  assert (D : DOM_elements this4 = DOM_elements this)
    by (apply (f_equal (fun s => fst (fst s))) in S4; exact S4).
  exists this4, w1, st, this6, w2.
  rewrite cacheBlocks_blocks, B4 in Ep. cbn [app] in Ep. rewrite D in Ep.
  split; [exact E |]. split; [exact S4 |]. split; [exact P4 |].
  split; [exact A |].
  split; [rewrite Ep; reflexivity |]. split; [rewrite Ep; exact D |].
  split; [rewrite Ep, Est; apply setPosition_idle_again; exact F |].
  split; [rewrite Est, E; reflexivity |].
  split; [rewrite Est, E; reflexivity |].
  split; [rewrite Est, E; reflexivity | exact I].
Qed.


Lemma init_passes_aligned (this : Instance) (w : World) :
  map Block.node (blocks (fst (init this w))) = DOM_elements this.
Proof.
  destruct (init_passes this w)
    as [this4 [w1 [st [this6 [w2 [_ [_ [_ [_ [B [D [_ [_ [_ [_ I]]]]]]]]]]]]]]].
  destruct (update_settings this6 w2) as [_ [_ B6]].
  rewrite I, B6, B. rewrite map_map.
  cbn [createBlock Block.node]. apply map_id.
Qed.

Lemma init_callback_helper (this : Instance) (w : World) :
  callback_calls (snd (init this w)) = S (callback_calls w).
Proof.
  destruct (init_passes this w)
    as [this4 [w1 [st [this6 [w2 [_ [_ [_ [_ [_ [_ [F [C [Fr [N I]]]]]]]]]]]]]]].
  rewrite I. destruct (update_idle this6 w2 F) as [_ Cb].
  rewrite Cb. exact C.
Qed.

Lemma init_keeps_pos_x (this : Instance) (w : World) :
  x (pos (fst (init this w))) = x (pos this).
Proof.
  destruct (init_unfold this w) as [this4 [w1 [st [_ [_ [_ [_ [X4 [_ [_ I]]]]]]]]]].
  rewrite I.
  destruct (animate_effect (cacheBlocks this4 w1) w1) as [[p Ep] _].
  destruct (animate (cacheBlocks this4 w1) w1) as [this6 w2]. cbn [fst] in Ep.
  destruct (update_effect this6 w2) as [p' [st' [c [E _]]]].
  rewrite E, setPosition_instance, Ep, cacheBlocks_blocks. exact X4.
Qed.




(** X11.  [init] leaves exactly one block per tracked element, in the order
    of the elements, each block pointing at its own element; blocks of an
    earlier initialisation are dropped. *)
Theorem init_blocks_aligned (this : Instance) (w : World) :
  map Block.node (blocks (fst (init this w))) = DOM_elements this
  /\ List.length (blocks (fst (init this w))) = List.length (DOM_elements this)
  /\ DOM_elements (fst (init this w)) = DOM_elements this.
Proof.
  destruct (init_passes this w)
    as [this4 [w1 [st [this6 [w2 [_ [_ [_ [_ [B [D [_ [_ [_ [_ I]]]]]]]]]]]]]]].
  destruct (update_settings this6 w2) as [S6 [_ B6]].
  apply (f_equal (fun s => fst (fst s))) in S6. cbn [settings fst] in S6.
  rewrite I, B6, S6, B, D. rewrite map_map, length_map.
  split; [| split; reflexivity].
  cbn [createBlock Block.node]. apply map_id.
Qed.

(** X12.  One [init] renders exactly once: the callback is called one time,
    one bound [update] is handed to the frame clock, and the resize listeners
    are left alone. *)
Theorem init_renders_once (this : Instance) (w : World) :
  callback_calls (snd (init this w)) = S (callback_calls w)
  /\ frames (snd (init this w)) = frames w ++ [next_fn w]
  /\ resize_listeners (snd (init this w)) = resize_listeners w.
Proof.
  destruct (init_passes this w)
    as [this4 [w1 [st [this6 [w2 [_ [_ [_ [_ [_ [_ [F [C [Fr [N I]]]]]]]]]]]]]]].
  rewrite I. destruct (update_idle this6 w2 F) as [_ Cb].
  destruct (update_effect this6 w2) as [p [st' [c [_ E]]]].
  split; [rewrite Cb; exact C |].
  split; [rewrite E; cbn [frames loop with_frames with_next_fn
                          with_callback_calls with_style next_fn];
          rewrite Fr, N; reflexivity |].
  rewrite <- I. destruct (init_world this w) as [L _]. exact L.
Qed.

(** ** Restoring and recapturing *)

Lemma restore_styles_other (els : list NodeId) :
  forall bs w e, ~ In e els -> style (restore_styles w els bs) e = style w e.
Proof.
  induction els as [| a els IH]; intros bs w e Hn; cbn [restore_styles].
  - reflexivity.
  - destruct bs as [| b bs]; [reflexivity |].
    rewrite IH by (intros H; apply Hn; right; exact H).
    cbn. destruct (Nat.eqb_spec e a) as [-> | _]; [| reflexivity].
    exfalso. apply Hn. left. reflexivity.
Qed.

Lemma restore_styles_sets (els : list NodeId) :
  forall bs w e b,
    NoDup els ->
    In (e, b) (combine els bs) ->
    style (restore_styles w els bs) e = mkStyle (Block.style b) None.
Proof.
  induction els as [| a els IH]; intros bs w e b Hd Hin.
  - destruct Hin.
  - destruct bs as [| b0 bs]; [destruct Hin |].
    inversion Hd as [| ? ? Hna Hd']; subst.
    cbn [restore_styles]. destruct Hin as [E | Hin].
    + inversion E; subst. rewrite restore_styles_other by exact Hna.
      cbn. rewrite Nat.eqb_refl. reflexivity.
    + apply IH; assumption.
Qed.

Lemma restore_styles_environment (w : World) (els : list NodeId) (bs : list Block.t) :
  environment (restore_styles w els bs) = environment w.
Proof.
  destruct (restore_styles_effect els bs w) as [st E]. rewrite E. reflexivity.
Qed.

Lemma in_combine_map {A B} (f : A -> B) (l : list A) (a : A) :
  In a l -> In (a, f a) (combine l (map f l)).
Proof.
  induction l as [| c l IH]; [intros [] |].
  cbn [map combine]. intros [-> | H]; [left; reflexivity | right; auto].
Qed.

Lemma destroy_effect_on_style (this : Instance) (w : World)
      (e : NodeId) (b : Block.t) :
  NoDup (DOM_elements this) ->
  In (e, b) (combine (DOM_elements this) (blocks this)) ->
  style (snd (destroy this w)) e = mkStyle (Block.style b) None
  /\ read_cssText (snd (destroy this w)) e = Block.style b.
Proof.
  intros Hd Hin. unfold destroy, bind, removeEventListener. cbv zeta.
  cbn [fst snd]. unfold read_cssText.
  cbn [style with_listeners with_next_fn].
  rewrite (restore_styles_sets _ _ w e b Hd Hin). cbn [transformProp text].
  split; reflexivity.
Qed.

(** X13.  [destroy] gives every tracked element the style text that was
    captured in its block, with no transform left from the library, whatever
    was rendered since; it sets the pause flag and touches nothing else of the
    instance. *)
Theorem destroy_restores_captured_text (this : Instance) (w : World)
        (e : NodeId) (b : Block.t) :
  NoDup (DOM_elements this) ->
  In (e, b) (combine (DOM_elements this) (blocks this)) ->
  style (snd (destroy this w)) e = mkStyle (Block.style b) None
  /\ read_cssText (snd (destroy this w)) e = Block.style b
  /\ fst (destroy this w) = set_pause this true.
Proof.
  intros Hd Hin.
  destruct (destroy_effect_on_style this w e b Hd Hin) as [A B].
  split; [exact A |]. split; [exact B |].
  unfold destroy, bind. cbv zeta. reflexivity.
Qed.

Lemma destroy_restores_captured_text_witness :
  let s := Page.built (Rellax TUndefined None Page.world) in
  let u := update (fst s) (scroll_to (snd s) 0 500) in
  style (snd (destroy (fst u) (snd u))) 1%nat
  = mkStyle (JS.lit "transform: rotate(45deg);") None.
Proof.
  intros s u.
  refine (proj1 (destroy_restores_captured_text (fst u) (snd u) 1%nat
                   (Block.mk 1%nat 350 350 900 0 150 400 7
                             (JS.lit "transform: rotate(45deg);")
                             (JS.lit " rotate(45deg)") (JS.lit "5")) _ _)).
  - vm_compute. repeat constructor; simpl; intuition discriminate.
  - vm_compute. right. left. reflexivity.
Defined.

(** A block depends on the instance through its options, container and
    viewport, and on the browser through what the page answers and the style
    text of the element. *)
Lemma createBlock_ext (t t' : Instance) (v v' : World) (e : NodeId) :
  options t = options t' ->
  DOM_wrapper t = DOM_wrapper t' ->
  screen t = screen t' ->
  environment v = environment v' ->
  read_cssText v e = read_cssText v' e ->
  createBlock t v e = createBlock t' v' e.
Proof.
  intros Ho Hw Hs He Hc. unfold environment in He.
  injection He as E1 E2 E3 E4 E5 E6 E7 E8 E9 E10 E11 E12 E13 E14 E15.
  unfold createBlock, bases, speed, percentageX, percentageY, blockWidth,
    blockHeight, blockLeft, blockTop, posX, posY, wrapperPosY, anchored,
    attr_zIndex, attr_speed, attr_percentage.
  rewrite Ho, Hw, Hs, Hc, E3, E4, E7, E8, E9, E10, E11.
  unfold updatePosition. rewrite Ho. reflexivity.
Qed.

Lemma update_environment (this : Instance) (w : World) :
  environment (snd (update this w)) = environment w.
Proof.
  destruct (update_effect this w) as [p [st [c [_ E]]]]. rewrite E. reflexivity.
Qed.

(** The blocks [init] leaves, and the page it leaves. *)
Lemma init_blocks (this : Instance) (w : World) :
  exists t4,
    options t4 = options this
    /\ DOM_wrapper t4 = DOM_wrapper this
    /\ screen t4 = mkPoint (JS.or (innerWidth w) (docEl_clientWidth w))
                           (JS.or (innerHeight w) (docEl_clientHeight w))
    /\ blocks (fst (init this w))
       = map (createBlock t4 (restore_styles w (DOM_elements this) (blocks this)))
             (DOM_elements this)
    /\ environment (snd (init this w)) = environment w.
Proof.
  destruct (restore_styles_effect (DOM_elements this) (blocks this) w) as [st E].
  unfold init. cbv zeta.
  set (w1 := restore_styles w (DOM_elements this) (blocks this)) in *.
  rewrite !setPosition_instance.
  match goal with
  | |- context [animate (cacheBlocks ?t w1) w1] => set (t4 := t)
  end.
  exists t4.
  split; [reflexivity |]. split; [reflexivity |].
  split; [unfold t4; rewrite E; reflexivity |].
  destruct (animate_effect (cacheBlocks t4 w1) w1) as [[p Ep] [st2 Est]].
  destruct (animate (cacheBlocks t4 w1) w1) as [this6 w2]. cbn [fst snd] in *.
  destruct (update_settings this6 w2) as [_ [_ B]].
  rewrite B, update_environment. subst this6 w2.
  rewrite cacheBlocks_blocks. split; [reflexivity |]. rewrite E. reflexivity.
Qed.

(** X14.  A second [init] on an unchanged page recaptures the very same
    blocks: the style text it stores is the one the first [init] stored, not
    the one carrying the library's transform, so refreshing again and again
    accumulates nothing. *)
Theorem refresh_stable (this : Instance) (w : World) :
  NoDup (DOM_elements this) ->
  let r := init this w in
  blocks (fst (refresh (fst r) (snd r))) = blocks (fst r).
Proof.
  intros Hd r. unfold refresh.
  destruct (init_blocks this w) as [t4 [O4 [W4 [S4 [B4 Ev4]]]]].
  destruct (init_blocks (fst r) (snd r)) as [t5 [O5 [W5 [S5 [B5 _]]]]].
  destruct (init_settings this w) as [St [_ _]].
  fold r in B4, Ev4, St.
  assert (D : DOM_elements (fst r) = DOM_elements this)
    by (apply (f_equal (fun s => fst (fst s))) in St; exact St).
  assert (O : options (fst r) = options this)
    by (apply (f_equal snd) in St; exact St).
  assert (W : DOM_wrapper (fst r) = DOM_wrapper this)
    by (apply (f_equal (fun s => snd (fst s))) in St; exact St).
  rewrite B5, D, B4. apply map_ext_in. intros e He.
  injection Ev4 as E1 E2 E3 E4 E5 E6 E7 E8 E9 E10 E11 E12 E13 E14 E15.
  apply createBlock_ext.
  - congruence.
  - congruence.
  - rewrite S5, S4, E1, E2, E5, E6. reflexivity.
  - rewrite !restore_styles_environment. unfold environment. congruence.
  - unfold read_cssText at 1.
    rewrite (restore_styles_sets _ _ (snd r) e
               (createBlock t4 (restore_styles w (DOM_elements this) (blocks this)) e)
               Hd (in_combine_map _ _ e He)).
    reflexivity.
Qed.

Lemma refresh_stable_witness :
  let r := init (fst (Page.built (Rellax TUndefined None Page.world)))
                (scroll_to Page.world 0 120) in
  blocks (fst (refresh (fst r) (snd r))) = blocks (fst r).
Proof.
  apply refresh_stable. repeat constructor; simpl; intuition discriminate.
Defined.

(** ** Construction, teardown and the life of an instance *)

(** A successful construction is [start] on a fresh instance. *)
Lemma Rellax_success (el : Target) (u : option Options.user) (w w' : World)
      (this : Instance) :
  Rellax el u w = inr (this, w') ->
  exists t0,
    start t0 w = (this, w')
    /\ DOM_elements t0 = resolve w (or_default el)
    /\ blocks t0 = []
    /\ pause t0 = false
    /\ pos t0 = mkPoint 0 0
    /\ resolve w (or_default el) <> [].
Proof.
  unfold Rellax. cbv zeta. intros HR.
  destruct (resolve w (or_default el)) as [| n l] eqn:R; [discriminate |].
  cbn [List.length Nat.eqb] in HR.
  assert (N : n :: l <> []) by discriminate.
  destruct (Options.wrapper _) as [| m | [| c s]];
    try (eexists; split; [injection HR as HR; exact HR |];
         repeat split; try reflexivity; exact N).
  destruct (self_options w) as [sel |]; [| discriminate].
  destruct (querySelector w sel); [| discriminate].
  eexists; split; [injection HR as HR; exact HR |].
  repeat split; try reflexivity; exact N.
Qed.

Lemma restore_styles_nil (w : World) (els : list NodeId) :
  restore_styles w els [] = w.
Proof. destruct els; reflexivity. Qed.

(** X15.  Construction followed by [destroy] is a round trip on the style
    text: whatever was rendered in between, [destroy] on an instance that
    still has the blocks of the construction gives every tracked element the
    style text it had before the constructor ran. *)
Theorem construct_destroy_round_trip (el : Target) (u : option Options.user)
        (w w' w2 : World) (this this2 : Instance) (e : NodeId) :
  Rellax el u w = inr (this, w') ->
  NoDup (DOM_elements this) ->
  DOM_elements this2 = DOM_elements this ->
  blocks this2 = blocks this ->
  In e (DOM_elements this) ->
  read_cssText (snd (destroy this2 w2)) e = read_cssText w e.
Proof.
  intros HR Hd D2 B2 He.
  destruct (Rellax_success el u w w' this HR) as [t0 [S0 [D0 [B0 _]]]].
  assert (T : this = fst (init t0 w))
    by (rewrite <- start_instance, S0; reflexivity).
  destruct (init_blocks t0 w) as [t4 [_ [_ [_ [B _]]]]].
  destruct (init_settings t0 w) as [St _].
  apply (f_equal (fun s => fst (fst s))) in St. cbn [settings fst] in St.
  rewrite <- T in B, St. rewrite B0, restore_styles_nil in B.
  rewrite <- St in B.
  destruct (destroy_effect_on_style this2 w2 e (createBlock t4 w e)) as [_ R].
  - rewrite D2. exact Hd.
  - rewrite D2, B2, B. apply in_combine_map. exact He.
  - rewrite R. reflexivity.
Qed.

Lemma construct_destroy_round_trip_witness :
  let s := Page.built (Rellax TUndefined None Page.world) in
  let u := update (fst s) (scroll_to (snd s) 0 300) in
  read_cssText (snd (destroy (fst u) (snd u))) 1%nat
  = read_cssText Page.world 1%nat.
Proof.
  intros s u.
  apply (construct_destroy_round_trip TUndefined None Page.world (snd s) (snd u)
                                      (fst s) (fst u) 1%nat).
  - vm_compute. reflexivity.
  - vm_compute. repeat constructor; simpl; intuition discriminate.
  - vm_compute. reflexivity.
  - vm_compute. reflexivity.
  - vm_compute. right. left. reflexivity.
Defined.

Lemma resize_pause (l : list FnId) :
  forall this w,
    pause (fst (fold_left (fun s _ => onwindowResize (fst s) (snd s)) l (this, w)))
    = pause this.
Proof.
  induction l as [| f l IH]; intros this w; [reflexivity |].
  cbn [fold_left fst snd]. unfold onwindowResize at 2.
  destruct (init_settings this w) as [_ [P _]].
  destruct (init this w) as [t v]. cbn [fst] in P. rewrite IH. exact P.
Qed.

(** X16.  Nothing clears the pause flag: [destroy] sets it, and [init]
    (so [refresh] and the resize listener), [update] and the frame clock all
    leave it as it is.  A destroyed instance stays paused for good. *)
Theorem pause_is_permanent (this : Instance) (w : World) :
  pause (fst (destroy this w)) = true
  /\ pause (fst (init this w)) = pause this
  /\ pause (fst (update this w)) = pause this
  /\ pause (fst (frame this w)) = pause this
  /\ pause (fst (resize this w)) = pause this.
Proof.
  split; [unfold destroy, bind; reflexivity |].
  split; [apply init_settings |].
  split; [apply update_settings |].
  split; [| apply resize_pause].
  unfold frame. destruct (frames w); [reflexivity | apply update_settings].
Qed.

(** X17.  The pending callbacks of the frame clock never get fewer: running
    one replaces it by one, [destroy] cancels none, and every [init], so
    every [refresh] and every resize, adds one more loop beside the running
    ones. *)
Theorem loops_accumulate (this : Instance) (w : World) :
  List.length (frames (snd (init this w))) = S (List.length (frames w))
  /\ List.length (frames (snd (update this w))) = S (List.length (frames w))
  /\ (frames w <> [] ->
      List.length (frames (snd (frame this w))) = List.length (frames w))
  /\ frames (snd (destroy this w)) = frames w.
Proof.
  assert (U : forall t v, frames (snd (update t v)) = frames v ++ [next_fn v]).
  { intros t v. destruct (update_effect t v) as [p [st [c [_ E]]]].
    rewrite E. reflexivity. }
  split.
  - destruct (init_passes this w)
      as [this4 [w1 [st [this6 [w2 [_ [_ [_ [_ [_ [_ [_ [_ [Fr [_ I]]]]]]]]]]]]]]].
    rewrite I, U, Fr, length_app. cbn [List.length]. lia.
  - split; [rewrite U, length_app; cbn [List.length]; lia |].
    split.
    + intros Hne. unfold frame. destruct (frames w) as [| f fs]; [contradiction |].
      rewrite U. cbn [frames with_frames]. rewrite length_app.
      cbn [List.length]. lia.
    + unfold destroy, bind, removeEventListener. cbv zeta.
      cbn [snd frames with_listeners with_next_fn].
      destruct (restore_styles_effect (DOM_elements this) (blocks this) w) as [st E].
      rewrite E. reflexivity.
Qed.

Lemma loops_accumulate_witness :
  let s := Page.built (Rellax TUndefined None Page.world) in
  List.length (frames (snd (frame (fst s) (snd s)))) = List.length (frames (snd s)).
Proof.
  intros s.
  refine (proj1 (proj2 (proj2 (loops_accumulate (fst s) (snd s)))) _).
  vm_compute. discriminate.
Defined.

(** X18.  For every target and every options object, the constructor raises
    the error of the missing elements exactly when the target resolves to no
    element; a target that is an element never raises it. *)
Theorem missing_elements_error (el : Target) (u : option Options.user) (w : World) :
  (Rellax el u w = inl (Error "The elements you're trying to select don't exist.")
   <-> resolve w (or_default el) = [])
  /\ forall n, Rellax (TNode n) u w
               <> inl (Error "The elements you're trying to select don't exist.").
Proof.
  assert (G : forall t, Rellax t u w
                        = inl (Error "The elements you're trying to select don't exist.")
                        <-> resolve w (or_default t) = []).
  { intros t. unfold Rellax. cbv zeta.
    destruct (resolve w (or_default t)) as [| n l].
    - split; reflexivity.
    - cbn [List.length Nat.eqb]. split; [| discriminate].
      destruct (Options.wrapper _) as [| m | [| c s]]; try discriminate.
      destruct (self_options w) as [sel |]; [| discriminate].
      destruct (querySelector w sel); discriminate. }
  split; [apply G |].
  intros n H. apply G in H. discriminate.
Qed.

(** X19.  What a successful construction returns: an instance that is not
    paused, tracks exactly the elements the target resolved to and holds one
    block per element in their order, with the horizontal offset at zero and
    the callback called once. *)
Theorem construction_result (el : Target) (u : option Options.user)
        (w w' : World) (this : Instance) :
  Rellax el u w = inr (this, w') ->
  DOM_elements this = resolve w (or_default el)
  /\ DOM_elements this <> []
  /\ map Block.node (blocks this) = DOM_elements this
  /\ pause this = false
  /\ x (pos this) = 0
  /\ callback_calls w' = S (callback_calls w).
Proof.
  intros HR.
  destruct (Rellax_success el u w w' this HR) as [t0 [S0 [D0 [B0 [P0 [X0 N0]]]]]].
  assert (T : this = fst (init t0 w))
    by (rewrite <- start_instance, S0; reflexivity).
  assert (Vc : callback_calls w' = callback_calls (snd (init t0 w))).
  { replace w' with (snd (start t0 w)) by (rewrite S0; reflexivity).
    unfold start. destruct (init t0 w) as [t1 w1]. unfold bind, addEventListener.
    cbn [snd next_fn with_next_fn resize_listeners].
    destruct (existsb _ _); reflexivity. }
  destruct (init_settings t0 w) as [St [Pa _]].
  apply (f_equal (fun s => fst (fst s))) in St. cbn [settings fst] in St.
  rewrite <- T in St, Pa.
  assert (A : map Block.node (blocks this) = DOM_elements t0)
    by (rewrite T; apply (init_passes_aligned t0 w)).
  split; [congruence |]. split; [congruence |]. split; [congruence |].
  split; [congruence |]. split.
  { rewrite T, init_keeps_pos_x, X0. reflexivity. }
  rewrite Vc. apply (init_callback_helper t0 w).
Qed.

Lemma construction_result_witness :
  let s := Page.built (Rellax (TString (JS.lit ".rellax")) None Page.world) in
  DOM_elements (fst s) = [0; 1]%nat /\ callback_calls (snd s) = 1%nat.
Proof.
  intros s.
  destruct (construction_result (TString (JS.lit ".rellax")) None Page.world
                                (snd s) (fst s)) as [A [_ [_ [_ [_ C]]]]].
  - vm_compute. reflexivity.
  - split; [exact A | exact C].
Defined.

(** ** Blocks and translations *)




(** What is not a finite number stays so through the arithmetic of
    [updatePosition]. *)
Lemma calc_raw_not_finite (round : bool) (speed percentage : IEEE.number) :
  IEEE.is_finite percentage = false ->
  IEEE.is_finite (IEEE.calc round (IEEE.raw speed percentage)) = false.
Proof.
  intros H.
  assert (S1 : IEEE.is_finite (IEEE.sub (IEEE.of_Z 1) percentage) = false)
    by (destruct percentage as [? | [|] | | ? ? ?]; try discriminate; reflexivity).
  assert (M : forall a b, IEEE.is_finite a = true -> a <> S754_zero false ->
                          a <> S754_zero true ->
                          IEEE.is_finite b = false ->
                          IEEE.is_finite (IEEE.mul a b) = false
                          /\ IEEE.is_finite (IEEE.mul b a) = false).
  { intros a b Fa Z1 Z2 Fb.
    destruct a as [[|] | ? | | ? ? ?]; try discriminate; try congruence.
    destruct b as [? | ? | | ? ? ?]; try discriminate; split; reflexivity. }
  assert (M' : forall a b, IEEE.is_finite b = false ->
                           IEEE.is_finite (IEEE.mul a b) = false).
  { intros a b Fb.
    destruct b as [? | ? | | ? ? ?]; try discriminate;
      destruct a as [? | ? | | ? ? ?]; reflexivity. }
  assert (S2 : IEEE.is_finite
                 (IEEE.mul (IEEE.of_Z 100) (IEEE.sub (IEEE.of_Z 1) percentage)) = false)
    by (apply M'; exact S1).
  assert (R : IEEE.is_finite (IEEE.raw speed percentage) = false)
    by (apply M'; exact S2).
  unfold IEEE.calc. destruct round.
  - destruct (IEEE.raw speed percentage) as [? | ? | | ? ? ?]; try discriminate;
      reflexivity.
  - destruct (M (IEEE.of_Z 100) (IEEE.raw speed percentage)) as [_ R100];
      [reflexivity | discriminate | discriminate | exact R |].
    destruct (IEEE.mul (IEEE.raw speed percentage) (IEEE.of_Z 100))
      as [? | ? | | ? ? ?]; try discriminate; reflexivity.
Qed.

(** A quotient whose divisor is a zero is an infinity or [NaN]. *)
Lemma percentage_not_finite (pos start screen size : IEEE.number) (s : bool) :
  IEEE.add size screen = S754_zero s ->
  IEEE.is_finite (IEEE.percentage pos start screen size) = false.
Proof.
  intros E. unfold IEEE.percentage. rewrite E.
  destruct (IEEE.add (IEEE.sub pos start) screen) as [? | ? | | ? ? ?]; reflexivity.
Qed.

(** X27.  The translation at the seed percentage in double arithmetic.
    [animate] subtracts the base from itself, which gives zero when the
    base is a finite number and [NaN] when it is not; and where the size of
    the block plus the size of the viewport is a zero, the percentage and
    the base are not finite, whatever the offsets and the speed, so that
    the translation is [NaN]. *)
Theorem translation_at_seed_in_doubles (round : bool)
        (pos start screen size speed : IEEE.number) :
  let percentage := IEEE.percentage pos start screen size in
  let base := IEEE.calc round (IEEE.raw speed percentage) in
  IEEE.position round percentage speed base
  = (if IEEE.is_finite base then S754_zero false else S754_nan)
  /\ ((exists s, IEEE.add size screen = S754_zero s) ->
      IEEE.is_finite percentage = false
      /\ IEEE.is_finite base = false
      /\ IEEE.position round percentage speed base = S754_nan).
Proof.
  cbv zeta.
  set (percentage := IEEE.percentage pos start screen size).
  set (base := IEEE.calc round (IEEE.raw speed percentage)).
  assert (P : IEEE.position round percentage speed base
              = if IEEE.is_finite base then S754_zero false else S754_nan)
    by (unfold IEEE.position; apply sub_diag).
  split; [exact P |]. intros [s E].
  assert (F : IEEE.is_finite percentage = false)
    by exact (percentage_not_finite pos start screen size s E).
  assert (B : IEEE.is_finite base = false)
    by exact (calc_raw_not_finite round speed percentage F).
  split; [exact F |]. split; [exact B |]. rewrite P, B. reflexivity.
Qed.

Lemma translation_at_seed_in_doubles_witness :
  let zero := IEEE.of_Z 0 in
  let percentage := IEEE.percentage zero (IEEE.of_Z 50) zero zero in
  IEEE.position true percentage (IEEE.of_Z (-2))
                (IEEE.calc true (IEEE.raw (IEEE.of_Z (-2)) percentage))
  = S754_nan.
Proof.
  intros zero percentage.
  refine (proj2 (proj2 (proj2 (translation_at_seed_in_doubles
                                 true zero (IEEE.of_Z 50) zero zero (IEEE.of_Z (-2))) _))).
  exists false. reflexivity.
Defined.



(** ** What is written, and where *)

Lemma animate_other (this : Instance) (w : World) (e : NodeId) :
  ~ In e (DOM_elements this) -> style (snd (animate this w)) e = style w e.
Proof.
  intros Hn. unfold animate.
  pose proof (animate_loop_other (DOM_elements this) (blocks this) this w e Hn) as O.
  destruct (animate_loop this w (DOM_elements this) (blocks this)) as [t v].
  exact O.
Qed.

Lemma update_other (this : Instance) (w : World) (e : NodeId) :
  ~ In e (DOM_elements this) -> style (snd (update this w)) e = style w e.
Proof.
  intros Hn. unfold update. pose proof (setPosition_instance this w) as SI.
  destruct (setPosition this w) as [changed this1]. cbn [snd] in SI.
  destruct (changed && _).
  - pose proof (animate_other this1 w e) as O.
    destruct (animate this1 w) as [t v]. cbn [snd] in *.
    unfold bind, loop. cbn [snd style with_frames with_next_fn].
    apply O. subst this1. exact Hn.
  - reflexivity.
Qed.

(** X22.  The library writes only on the elements it tracks: neither
    [animate], [update], [init] nor [destroy] changes the style of any other
    element. *)
Theorem untracked_elements_untouched (this : Instance) (w : World) (e : NodeId) :
  ~ In e (DOM_elements this) ->
  style (snd (animate this w)) e = style w e
  /\ style (snd (update this w)) e = style w e
  /\ style (snd (init this w)) e = style w e
  /\ style (snd (destroy this w)) e = style w e.
Proof.
  intros Hn.
  split; [apply animate_other; exact Hn |].
  split; [apply update_other; exact Hn |].
  split.
  - destruct (init_unfold this w) as [t4 [v1 [st' [_ [R [S4' [_ [_ [_ [_ I']]]]]]]]]].
    rewrite I'. pose proof (animate_other (cacheBlocks t4 v1) v1 e) as O.
    destruct (animate (cacheBlocks t4 v1) v1) as [t6 v2] eqn:An.
    cbn [snd] in O.
    assert (D4 : DOM_elements t4 = DOM_elements this)
      by (apply (f_equal (fun s => fst (fst s))) in S4'; exact S4').
    assert (D6 : DOM_elements t6 = DOM_elements this).
    { destruct (animate_settings (cacheBlocks t4 v1) v1) as [S6 _].
      rewrite An in S6. cbn [fst] in S6.
      apply (f_equal (fun s => fst (fst s))) in S6. cbn [settings fst] in S6.
      rewrite S6, cacheBlocks_blocks. exact D4. }
    rewrite update_other by (rewrite D6; exact Hn).
    rewrite O by (rewrite cacheBlocks_blocks; cbn [DOM_elements set_blocks];
                  rewrite D4; exact Hn).
    rewrite R. apply restore_styles_other. exact Hn.
  - unfold destroy, bind, removeEventListener. cbv zeta.
    cbn [snd style with_listeners with_next_fn].
    apply restore_styles_other. exact Hn.
Qed.

Lemma untracked_elements_untouched_witness :
  let s := Page.built (Rellax TUndefined None Page.world) in
  style (snd (init (fst s) (scroll_to (snd s) 0 80))) 2%nat
  = style (scroll_to (snd s) 0 80) 2%nat.
Proof.
  intros s.
  refine (proj1 (proj2 (proj2
            (untracked_elements_untouched (fst s) (scroll_to (snd s) 0 80) 2%nat _)))).
  vm_compute. intuition discriminate.
Defined.

(** X23.  What [animate] writes on a tracked element after [cacheBlocks]: the
    Z component is the element's [data-rellax-zindex], or ["0"] without one;
    the transform found in the captured style text is appended; a disabled
    axis is zero.  None of this depends on the scroll offset. *)
Theorem frame_carries_zindex_and_transform (this : Instance) (w w' : World)
        (el : NodeId) :
  NoDup (DOM_elements this) ->
  In el (DOM_elements this) ->
  exists t,
    transformProp (style (snd (animate (cacheBlocks (set_blocks this []) w) w')) el)
    = Some t
    /\ tz t = Options.over (data_rellax_zindex (element w el)) (JS.lit "0")
    /\ rest t = extractTransform (read_cssText w el)
    /\ (if Options.vertical (options this) then True else ty t = 0)
    /\ (if Options.horizontal (options this) then True else tx t = 0).
Proof.
  intros Hd Hin.
  destruct (animate_cached_block this w w' el Hd Hin) as [_ W].
  exists (translate this (createBlock this w el)).
  split; [exact W |]. unfold translate. cbn [tz rest tx ty].
  split; [reflexivity |]. split; [reflexivity |].
  split; [destruct (Options.vertical (options this))
         | destruct (Options.horizontal (options this))];
    first [exact I | reflexivity].
Qed.

Lemma frame_carries_zindex_and_transform_witness :
  let this := fst (Page.built (Rellax TUndefined None Page.world)) in
  exists t,
    transformProp (style (snd (animate (cacheBlocks (set_blocks this []) Page.world)
                                       (scroll_to Page.world 0 900))) 1%nat)
    = Some t
    /\ tz t = JS.lit "5"
    /\ rest t = JS.lit " rotate(45deg)"
    /\ tx t = 0.
Proof.
  intros this.
  destruct (frame_carries_zindex_and_transform this Page.world
              (scroll_to Page.world 0 900) 1%nat) as [t [A [B [C [_ D]]]]].
  - repeat constructor; simpl; intuition discriminate.
  - right. left. reflexivity.
  - exists t. split; [exact A |]. split; [exact B |]. split; [exact C | exact D].
Defined.

(** ** The stored transform fragment *)

Lemma In_skipn {A} (n : nat) :
  forall (l : list A) (a : A), In a (skipn n l) -> In a l.
Proof.
  induction n as [| n IH]; intros l a H; [exact H |].
  destruct l as [| c l]; [destruct H |]. right. apply IH. exact H.
Qed.

(** X24.  A style text without ["transform"] gives the empty fragment.
    Otherwise the fragment is one space followed by text that contains no
    white space and no semicolon, so that appending it to the translation
    written by [animate] stays within one declaration. *)
Theorem extractTransform_clean (style : JS.str) :
  if (0 <=? JS.indexOf style (JS.lit "transform"))%Z
  then exists f,
      extractTransform style = 32%N :: f
      /\ forall c, In c f -> JS.isWhiteSpace c = false /\ c <> 59%N
  else extractTransform style = [].
Proof.
  rewrite extractTransform_fragment. unfold spec_transformFragment.
  destruct (0 <=? JS.indexOf style (JS.lit "transform"))%Z; [| reflexivity].
  eexists. split; [reflexivity |].
  intros c Hc. unfold JS.removeWhiteSpace in Hc. apply filter_In in Hc.
  destruct Hc as [Hin Hw]. split; [apply negb_true_iff; exact Hw |].
  intros ->. apply In_skipn in Hin.
  exact (upto_semicolon_clean _ Hin).
Qed.

(** ** The transform property *)

Lemma probe_vendors_spec (st : JS.str -> StyleValue) (vs : list JS.str) :
  match probe_vendors st vs with
  | Some name =>
      exists v, In v vs /\ name = v ++ JS.lit "Transform" /\ st name <> SUndefined
  | None => forall v, In v vs -> st (v ++ JS.lit "Transform") = SUndefined
  end.
Proof.
  induction vs as [| v vs IH]; cbn [probe_vendors]; [intros v [] |].
  destruct (st (v ++ JS.lit "Transform")) eqn:E.
  - destruct (probe_vendors st vs) as [name |].
    + destruct IH as [v' [I1 [I2 I3]]]. exists v'.
      split; [right; exact I1 |]. split; assumption.
    + intros v' [<- | H]; [exact E | apply IH; exact H].
  - exists v. split; [left; reflexivity |]. split; [reflexivity |].
    rewrite E. discriminate.
  - exists v. split; [left; reflexivity |]. split; [reflexivity |].
    rewrite E. discriminate.
Qed.

(** X25.  The transform property chosen when the script loads.  A truthy
    [window.transformProp] wins.  Otherwise the vendor prefixes are probed only
    if [style.transform] of the test element is [null]: when it is
    [undefined] or a string the choice is ['transform'], and when it is [null]
    the choice is a prefixed name whose property is defined, or ['transform']
    if all three prefixed properties are undefined. *)
Theorem detect_transformProp_spec (wp : option JS.str) (st : JS.str -> StyleValue) :
  match wp with
  | Some (c :: p) => detect_transformProp wp st = c :: p
  | _ =>
      match st (JS.lit "transform") with
      | SNull =>
          (detect_transformProp wp st = JS.lit "transform"
           /\ forall v, In v vendors -> st (v ++ JS.lit "Transform") = SUndefined)
          \/ (exists v, In v vendors
                        /\ detect_transformProp wp st = v ++ JS.lit "Transform"
                        /\ st (detect_transformProp wp st) <> SUndefined)
      | _ => detect_transformProp wp st = JS.lit "transform"
      end
  end.
Proof.
  assert (G : match st (JS.lit "transform") with
              | SNull =>
                  (detect_transformProp None st = JS.lit "transform"
                   /\ forall v, In v vendors -> st (v ++ JS.lit "Transform") = SUndefined)
                  \/ (exists v, In v vendors
                                /\ detect_transformProp None st = v ++ JS.lit "Transform"
                                /\ st (detect_transformProp None st) <> SUndefined)
              | _ => detect_transformProp None st = JS.lit "transform"
              end).
  { unfold detect_transformProp.
    destruct (st (JS.lit "transform")); try reflexivity.
    pose proof (probe_vendors_spec st vendors) as P.
    destruct (probe_vendors st vendors) as [name |].
    - right. destruct P as [v [I1 [I2 I3]]]. exists v.
      split; [exact I1 |]. split; assumption.
    - left. split; [reflexivity | exact P]. }
  destruct wp as [[| c p] |]; [exact G | reflexivity | exact G].
Qed.

(** ** How far an element moves *)



